(** * benchmark_compare.js: statistics, adjudication and aggregation

    A shallow embedding of the benchmark harness that compares two Node.js
    binaries (candidate A = the MSVC build, candidate B = the ClangCL build),
    and the proofs of what it does.

    JavaScript numbers are IEEE-754 binary64 values.  They are embedded as
    Rocq's primitive [float]s, whose operations are the binary64 operations
    with round-to-nearest-even, so [+], [-], [*], [/], [sqrt], [<] below are
    the operations the script executes.  The two reductions [median] and
    [mean] are written once over an interface of number operations, so that
    the same code can also be read in exact rational arithmetic.

    Child processes, the clock, the random source and the file system are
    an interface [Node]; the functions that use them thread the state of
    the world through a state monad.

    The file has four parts: the embedding of the script, the notions the
    statements use, facts on binary64 numbers derived from their
    specification, and the properties of the script. *)

From Stdlib Require Import ZArith QArith Qminmax List Bool Lia Lqa.
From Stdlib Require Import Ascii String DecimalString.
From Stdlib Require Import Sorting.Sorted Sorting.Permutation.
From Stdlib Require Import Floats.
From ExtLib Require Import Structures.Monad Data.Monads.StateMonad.
Import ListNotations.
Import MonadNotation.

Local Open Scope Z_scope.

(** ** Numbers *)

(** [Number(z)] for an integer [z] (an array length, a BigInt difference):
    the binary64 value nearest to [z]. *)
Definition Number_of_Z (z : Z) : float :=
  SF2Prim (binary_normalize prec emax z 0 false).

(** The operations of a JavaScript number that [median] and [mean] use.
    [undef] is what [ToNumber(undefined)] yields when an array is read out
    of range. *)
Class Arith (T : Type) : Type := {
  lit : Z -> T;
  undef : T;
  add : T -> T -> T;
  sub : T -> T -> T;
  div : T -> T -> T;
  less : T -> T -> bool
}.

(** The numbers of the script: binary64. *)
#[export] Instance Arith_float : Arith float := {
  lit := Number_of_Z;
  undef := nan;
  add := PrimFloat.add;
  sub := PrimFloat.sub;
  div := PrimFloat.div;
  less := PrimFloat.ltb
}.


(** ** Arrays *)

(** [arr[i]]: [None] is [undefined], the value of an out-of-range read. *)
Definition at_ {T} (arr : list T) (i : Z) : option T :=
  if i <? 0 then None else nth_error arr (Z.to_nat i).

Definition ToNumber {T} `{Arith T} (v : option T) : T :=
  match v with
  | Some x => x
  | None => undef
  end.

Definition length_ {T} (arr : list T) : Z := Z.of_nat (List.length arr).

(** [[...arr].sort(cmp)].  The engine's sort is stable; on a comparator
    that orders the elements consistently every stable sort returns the
    same array, so it is embedded as a stable insertion sort.  [cmp a b] is
    the number the comparator returns; an element goes before another one
    exactly when the comparator's result is negative. *)
Section Sort.
Context {T : Type} `{Arith T}.
Variable cmp : T -> T -> T.

Fixpoint sort_insert (x : T) (sorted : list T) : list T :=
  match sorted with
  | [] => [x]
  | y :: rest =>
      if less (cmp y x) (lit 0) then y :: sort_insert x rest
      else x :: y :: rest
  end.

Fixpoint sort (arr : list T) : list T :=
  match arr with
  | [] => []
  | x :: rest => sort_insert x (sort rest)
  end.
End Sort.

(** ** Statistics Engine (lines 24-37) *)

Section Statistics.
Context {T : Type} `{Arith T}.

(** [function median(arr)]:
    [sorted = [...arr].sort((a, b) => a - b)],
    [mid = Math.floor(sorted.length / 2)],
    [sorted.length % 2 ? sorted[mid] : (sorted[mid - 1] + sorted[mid]) / 2].
    The length is an integer below [2^32], so its halving and its parity are
    taken on integers.  When the length is odd, [mid] is in range and
    [sorted[mid]] is a number (lemma [median_cases]). *)
Definition median (arr : list T) : T :=
  let sorted := sort (fun a b => sub a b) arr in
  let mid := length_ sorted / 2 in
  if negb (length_ sorted mod 2 =? 0)
  then ToNumber (at_ sorted mid)
  else div (add (ToNumber (at_ sorted (mid - 1))) (ToNumber (at_ sorted mid))) (lit 2).

(** [function mean(arr)]: [arr.reduce((a, b) => a + b, 0) / arr.length]. *)
Definition mean (arr : list T) : T :=
  div (fold_left (fun a b => add a b) arr (lit 0)) (lit (length_ arr)).
End Statistics.

Local Open Scope string_scope.
Local Open Scope float_scope.

(** [x ** 2]: the engine computes the power with exponent 2 as [x * x]. *)
Definition sq (x : float) : float := x * x.

(** [function stddev(arr)]:
    [m = mean(arr)],
    [Math.sqrt(arr.reduce((sum, v) => sum + (v - m) ** 2, 0) / (arr.length - 1))]. *)
Definition stddev (arr : list float) : float :=
  let m := mean arr in
  sqrt (fold_left (fun sum v => sum + sq (v - m)) arr (lit 0%Z)
        / lit (length_ arr - 1)%Z).

(** [Math.max(a, b)]: [NaN] if either is [NaN]; [+0] is larger than [-0]. *)
Definition Math_max (a b : float) : float :=
  if is_nan a || is_nan b then nan
  else if a <? b then b
  else if b <? a then a
  else if get_sign a then b else a.

(** ** Winner Adjudicator (lines 55-61) *)

Definition winner (msvcVal clangVal : float) (lowerIsBetter : bool)
                  (msvcStd clangStd : float) : string :=
  if ((0 <? msvcStd) || (0 <? clangStd))
     && (abs (msvcVal - clangVal) <? Math_max msvcStd clangStd)
  then "~Tie"
  else if lowerIsBetter
  then (if msvcVal <? clangVal then "MSVC"
        else if clangVal <? msvcVal then "ClangCL" else "Tie")
  else (if clangVal <? msvcVal then "MSVC"
        else if msvcVal <? clangVal then "ClangCL" else "Tie").

(** ** Number formatting (lines 45-53) *)

(** What the script takes from the runtime and the host system.  The pure
    members are library functions whose text processing is not embedded;
    the others read or change the state of the world [World]. *)
Class Node : Type := {
  World : Type;
  (** [Number::toString(x)] for a finite [x >= 1e21] (exponent notation) *)
  Number_toString : float -> string;
  parseFloat : string -> float;
  trim : string -> string;
  path_resolve : string -> string;
  (** [fs.existsSync(path)] *)
  existsSync : string -> World -> bool;
  (** whether the file at [path] may be executed; the script never asks *)
  executable : string -> World -> bool;
  (** [process.hrtime.bigint()], in nanoseconds *)
  hrtime_bigint : World -> Z * World;
  (** [Math.random()] *)
  Math_random : World -> float * World;
  (** [spawnSync(bin, args, { encoding: 'utf8', timeout: 60000, ... })]:
      [stdout], [stderr] (or [null]) and [status] ([null] when the child was
      killed, as it is when the timeout expires) *)
  spawnSync : string -> list string -> World ->
              (option string * option string * option Z) * World
}.

(** The decimal digits of a non-negative integer. *)
Definition digits (n : Z) : string := NilZero.string_of_uint (N.to_uint (Z.to_N n)).

Fixpoint zeros (k : nat) : string :=
  match k with
  | O => ""
  | S k' => String "0" (zeros k')
  end.

(** The integer [n] for which [n / 10^f - m * 2^e] is closest to zero, the
    larger one if there are two. *)
Definition scaled_round (m : positive) (e : Z) (f : nat) : Z :=
  let q := (Zpos m * 10 ^ Z.of_nat f)%Z in
  if (0 <=? e)%Z then (q * 2 ^ e)%Z
  else let d := (2 ^ (- e))%Z in ((2 * q + d) / (2 * d))%Z.

(** Steps 11.b-c of [Number.prototype.toFixed]: the digits of [n] with a
    point before the last [f] of them. *)
Definition fixed_point (n : Z) (f : nat) : string :=
  let m := digits n in
  match f with
  | O => m
  | _ =>
      let k := String.length m in
      let m := if (k <=? f)%nat then zeros (f + 1 - k) ++ m else m in
      let k := String.length m in
      substring 0 (k - f) m ++ "." ++ substring (k - f) f m
  end.

Section Formatting.
Context {node : Node}.

(** [x.toFixed(f)] *)
Definition toFixed (x : float) (f : nat) : string :=
  match Prim2SF x with
  | S754_nan => "NaN"
  | S754_infinity s => if s then "-Infinity" else "Infinity"
  | S754_zero _ => fixed_point 0 f
  | S754_finite s m e =>
      (if s then "-" else "") ++
      (if 1e21 <=? abs x then Number_toString (abs x)
       else fixed_point (scaled_round m e f) f)
  end.

(** [function formatMs(ms)] *)
Definition formatMs (ms : float) : string := toFixed ms 2 ++ " ms".

(** [function pctDiff(msvc, clang)] *)
Definition pctDiff (msvc clang : float) : string :=
  let diff := ((clang - msvc) / msvc) * 100 in
  let sign := if 0 <? diff then "+" else "" in
  sign ++ toFixed diff 2 ++ "%".
End Formatting.

(** A runtime for running the embedding on concrete inputs: every child
    runs for [elapsed] nanoseconds, prints [stdout_of bin] and exits with
    [status_of bin]; the clock is the state of the world; [Math.random()]
    is [coin]; the files listed in [files] exist and none is executable. *)
Definition demo_node (files : list string) (coin : float) (elapsed : Z)
    (stdout_of : string -> option string) (status_of : string -> option Z) : Node := {|
  World := Z;
  Number_toString := fun _ => "1e+21";
  parseFloat := fun s => if String.eqb s "12.5" then 12.5 else nan;
  trim := fun s => s;
  path_resolve := fun s => s;
  existsSync := fun p _ => existsb (String.eqb p) files;
  executable := fun _ _ => false;
  hrtime_bigint := fun w => (w, w);
  Math_random := fun w => (coin, w);
  spawnSync := fun bin _ w => ((stdout_of bin, Some "", status_of bin), (w + elapsed)%Z)
|}.

(** ** Trial Runner (lines 63-90) *)

Local Open Scope monad_scope.

(** What [runTimed] returns. *)
Record Timed : Type := {
  durationMs : float;
  stdout : string;
  stderr : string;
  status : option Z
}.

(** What [runBothTimed] returns: [{ msvc, clang }]. *)
Record Both : Type := {
  msvc_run : Timed;
  clang_run : Timed
}.

(** [x || '']: a missing output reads as the empty string. *)
Definition or_empty (x : option string) : string :=
  match x with
  | Some s => s
  | None => ""
  end.

(** One row of the report, as the benchmark functions build it. *)
Record Result : Type := {
  name : string;
  msvc : float;
  clang : float;
  msvcFmt : string;
  clangFmt : string;
  msvcStd : option string;
  clangStd : option string;
  diff : string;
  winner_ : string;
  unit_ : string;
  lowerIsBetter_ : bool
}.

(** The double-quote character, for the one row title that holds it. *)
Definition dquote : string := String (ascii_of_nat 34) "".

Definition ITERATIONS : nat := 30.
Definition WARMUP : nat := 10.

Section Harness.
Context {node : Node}.
(** The two module-level constants that hold the candidates' paths. *)
Variables MSVC_BIN CLANG_BIN : string.

Abbreviation io := (state World).

Definition lift {A} (f : World -> A * World) : io A := mkState f.

(** [function runTimed(bin, args, options = {})]; no caller passes
    [options]. *)
Definition runTimed (bin : string) (args : list string) : io Timed :=
  start <- lift hrtime_bigint ;;
  result <- lift (spawnSync bin args) ;;
  end_ <- lift hrtime_bigint ;;
  let '(out, err, st) := result in
  ret {| durationMs := Number_of_Z (end_ - start) / 1e6;
         stdout := or_empty out;
         stderr := or_empty err;
         status := st |}.

(** [function runBothTimed(args, options = {})] *)
Definition runBothTimed (args : list string) : io Both :=
  r <- lift Math_random ;;
  if r <? 0.5 then
    msvc <- runTimed MSVC_BIN args ;;
    clang <- runTimed CLANG_BIN args ;;
    ret {| msvc_run := msvc; clang_run := clang |}
  else
    clang <- runTimed CLANG_BIN args ;;
    msvc <- runTimed MSVC_BIN args ;;
    ret {| msvc_run := msvc; clang_run := clang |}.

(** [for (let i = 0; i < WARMUP; i++) runBothTimed(args);] *)
Fixpoint warmup (n : nat) (args : list string) : io unit :=
  match n with
  | O => ret tt
  | S n' => _ <- runBothTimed args ;; warmup n' args
  end.

(** The measuring loop of the timing benchmarks (lines 116-120):
    [times.msvc.push(msvc.durationMs); times.clang.push(clang.durationMs)]. *)
Fixpoint measure_durations (n : nat) (args : list string)
    (times : list float * list float) : io (list float * list float) :=
  match n with
  | O => ret times
  | S n' =>
      both <- runBothTimed args ;;
      measure_durations n' args
        ((fst times ++ [durationMs (msvc_run both)])%list,
         (snd times ++ [durationMs (clang_run both)])%list)
  end.

(** The measuring loop of the benchmarks whose child prints its own
    timing (lines 294-300):
    [if (!isNaN(msvcT)) times.msvc.push(msvcT)], and the same for clang. *)
Fixpoint measure_printed (n : nat) (args : list string)
    (times : list float * list float) : io (list float * list float) :=
  match n with
  | O => ret times
  | S n' =>
      both <- runBothTimed args ;;
      let msvcT := parseFloat (trim (stdout (msvc_run both))) in
      let clangT := parseFloat (trim (stdout (clang_run both))) in
      measure_printed n' args
        ((if negb (is_nan msvcT) then (fst times ++ [msvcT])%list else fst times),
         (if negb (is_nan clangT) then (snd times ++ [clangT])%list else snd times))
  end.

(** The row both kinds of benchmark return (lines 122-136). *)
Definition timing_row (title : string) (times : list float * list float) : Result :=
  let msvcMed := median (fst times) in
  let clangMed := median (snd times) in
  {| name := title;
     msvc := msvcMed;
     clang := clangMed;
     msvcFmt := formatMs msvcMed;
     clangFmt := formatMs clangMed;
     msvcStd := Some (formatMs (stddev (fst times)));
     clangStd := Some (formatMs (stddev (snd times)));
     diff := pctDiff msvcMed clangMed;
     winner_ := winner msvcMed clangMed true (stddev (fst times)) (stddev (snd times));
     unit_ := "ms";
     lowerIsBetter_ := true |}.

(** [function benchStartupTime()] *)
Definition benchStartupTime : io Result :=
  warmup WARMUP ["-e"; "0"] ;;
  times <- measure_durations ITERATIONS ["-e"; "0"] ([], []) ;;
  ret (timing_row ("Startup Time (node -e " ++ dquote ++ "0" ++ dquote ++ ")") times).

(** [function benchBufferOps()]; [code] is the text of the child's script. *)
Definition benchBufferOps (code : string) : io Result :=
  warmup WARMUP ["-e"; code] ;;
  times <- measure_printed ITERATIONS ["-e"; code] ([], []) ;;
  ret (timing_row "Buffer ops (50k alloc+fill+hex)" times).
End Harness.

(** ** Aggregator (lines 727-738) *)

(** The five accumulators of the summary loop.  The three counters are
    incremented by one per row and an array has fewer than [2^32] elements,
    so they stay integers that binary64 represents exactly: they are
    embedded as integers. *)
Record Tally : Type := {
  msvcWins : Z;
  clangWins : Z;
  ties : Z;
  msvcAdvantage : float;
  clangAdvantage : float
}.

(** [r.msvc > 0 ? Math.abs(((r.clang - r.msvc) / r.msvc) * 100) : 0] *)
Definition pct (r : Result) : float :=
  if 0 <? msvc r then abs (((clang r - msvc r) / msvc r) * 100) else 0.

(** The body of [for (const r of allResults)]. *)
Definition tally_step (t : Tally) (r : Result) : Tally :=
  if String.eqb (winner_ r) "MSVC" then
    {| msvcWins := msvcWins t + 1; clangWins := clangWins t; ties := ties t;
       msvcAdvantage := msvcAdvantage t + pct r;
       clangAdvantage := clangAdvantage t |}
  else if String.eqb (winner_ r) "ClangCL" then
    {| msvcWins := msvcWins t; clangWins := clangWins t + 1; ties := ties t;
       msvcAdvantage := msvcAdvantage t;
       clangAdvantage := clangAdvantage t + pct r |}
  else
    {| msvcWins := msvcWins t; clangWins := clangWins t; ties := ties t + 1;
       msvcAdvantage := msvcAdvantage t;
       clangAdvantage := clangAdvantage t |}.

Definition tally0 : Tally :=
  {| msvcWins := 0; clangWins := 0; ties := 0;
     msvcAdvantage := 0; clangAdvantage := 0 |}.

Definition tally (allResults : list Result) : Tally :=
  fold_left tally_step allResults tally0.

(** The summary block: counters, totals, shares and the overall winner. *)
Record Report : Type := {
  totals : Tally;
  msvcShare : string;
  clangShare : string;
  overallWinner : string
}.

Section Summary.
Context {node : Node}.

Definition summary (allResults : list Result) : Report :=
  let t := tally allResults in
  let totalAdv := msvcAdvantage t + clangAdvantage t in
  {| totals := t;
     msvcShare := if 0 <? totalAdv
                  then toFixed (msvcAdvantage t / totalAdv * 100) 1 else "50.0";
     clangShare := if 0 <? totalAdv
                   then toFixed (clangAdvantage t / totalAdv * 100) 1 else "50.0";
     overallWinner := if clangAdvantage t <? msvcAdvantage t then "MSVC"
                      else if msvcAdvantage t <? clangAdvantage t then "ClangCL"
                      else "Tie" |}.
End Summary.

(** ** Start of the script (lines 9-17) and its end (line 744) *)

(** How the top-level statements before [main()] end: the process exits
    with a message on [stderr], or the two constants are set. *)
Inductive Startup : Type :=
  | Exit (code : Z) (message : string)
  | Ready (MSVC_BIN CLANG_BIN : string).

(** How the process ends: its exit status and what went to [stderr]. *)
Record Ended : Type := {
  exit_status : Z;
  errors : list string
}.

Section Process.
Context {node : Node}.

(** [argv] is [process.argv]; [args = process.argv.slice(2)]. *)
Definition startup (argv : list string) (w : World) : Startup :=
  let args := skipn 2 argv in
  if negb (length_ args =? 2)%Z then
    Exit 1 "Usage: node benchmark_compare.js <path-to-msvc-binary> <path-to-clang-binary>"
  else
    let MSVC_BIN := path_resolve (nth 0 args "") in
    let CLANG_BIN := path_resolve (nth 1 args "") in
    if negb (existsSync MSVC_BIN w) then
      Exit 1 ("MSVC binary not found: " ++ MSVC_BIN)
    else if negb (existsSync CLANG_BIN w) then
      Exit 1 ("ClangCL binary not found: " ++ CLANG_BIN)
    else Ready MSVC_BIN CLANG_BIN.

(** The body of [async function main()]: it runs to its end ([inr]) or
    throws ([inl], the error).  It holds no [process.exit]. *)
Variable main : string -> string -> state World (string + unit).

(** The whole script: the checks, then [main().catch(console.error)]. *)
Definition script (argv : list string) (w : World) : Ended * World :=
  match startup argv w with
  | Exit code message => ({| exit_status := code; errors := [message] |}, w)
  | Ready MSVC_BIN CLANG_BIN =>
      let (r, w') := runState (main MSVC_BIN CLANG_BIN) w in
      ({| exit_status := 0;
          errors := match r with inl e => [e] | inr _ => [] end |}, w')
  end.
End Process.

(** The three MetricResults of the aggregation example: A wins by 5%, B
    wins by 15%, and a tie. *)
Definition row (a b : float) (sa sb : float) : Result :=
  {| name := "row"; msvc := a; clang := b; msvcFmt := ""; clangFmt := "";
     msvcStd := None; clangStd := None; diff := "";
     winner_ := winner a b true sa sb; unit_ := "ms"; lowerIsBetter_ := true |}.

Definition three_rows : list Result :=
  [row 100 105 1 1; row 100 85 1 1; row 100 100.5 2 2].


(** * Notions used in the statements *)

(** ** Verdicts *)

(** The three verdicts.  The script writes them as labels: a row of the
    report is a win of candidate A when its label is ["MSVC"], a win of
    candidate B when it is ["ClangCL"], and a tie otherwise; this is how
    the summary loop reads a label. *)
Inductive Verdict : Type := A | B | Tie.

Definition verdict (label : string) : Verdict :=
  if String.eqb label "MSVC" then A
  else if String.eqb label "ClangCL" then B
  else Tie.

Definition Verdict_eqb (u v : Verdict) : bool :=
  match u, v with
  | A, A | B, B | Tie, Tie => true
  | _, _ => false
  end.

(** [adjudicate(valueA, valueB, lowerIsBetter, stdA, stdB)] *)
Definition adjudicate (valueA valueB : float) (lowerIsBetter : bool)
                      (stdA stdB : float) : Verdict :=
  verdict (winner valueA valueB lowerIsBetter stdA stdB).

(** [max(stdA, stdB) > 0] and [|valueA - valueB| < max(stdA, stdB)] *)
Definition within_noise (valueA valueB stdA stdB : float) : bool :=
  (0 <? Math_max stdA stdB) && (abs (valueA - valueB) <? Math_max stdA stdB).

(** ** Orders on numbers *)

(** A position on the integer line for every value but [NaN]: comparing
    two numbers is comparing their positions. *)
Definition SFkey (x : spec_float) : Z :=
  match x with
  | S754_zero _ => 0
  | S754_nan => 0
  | S754_infinity s => cond_Zopp s (2 ^ 65)
  | S754_finite s m e => cond_Zopp s ((e - emin) * 2 ^ 53 + Zpos m)
  end.

Definition key (x : float) : Z := SFkey (Prim2SF x).

(** A SampleSet of numbers: no element is [NaN]. *)
Definition numeric (arr : list float) : Prop :=
  Forall (fun x => is_nan x = false) arr.

Definition fle (x y : float) : Prop := (x <=? y) = true.





(** The mantissa of a finite number written at exponent [ez], signed. *)
Definition aligned (s : bool) (m : positive) (e ez : Z) : Z :=
  cond_Zopp s (Zpos (fst (shl_align m e ez))).

(** [x] is an infinity or a finite number other than zero, of sign [s]. *)
Definition signed_as (s : bool) (x : spec_float) : Prop :=
  match x with
  | S754_finite s' _ _ => s' = s
  | S754_infinity s' => s' = s
  | _ => False
  end.

(** ** Aggregation *)

(** The rows of a report whose verdict is [v], in the report's order. *)
Definition won_by (v : Verdict) (rows : list Result) : list Result :=
  filter (fun r => Verdict_eqb (verdict (winner_ r)) v) rows.

(** The sum of a list of numbers, added from the left starting at [acc]. *)
Definition fsum_from (acc : float) (xs : list float) : float :=
  fold_left PrimFloat.add xs acc.

Definition fsum (xs : list float) : float := fsum_from 0 xs.

(** ** Calls *)

(** How a call of a reduction ends.  [median], [mean] and [stddev] are
    arithmetic over the elements of an array and hold no [throw]: a call
    always returns. *)
Inductive Completion : Type :=
  | Returns (value : float)
  | Throws (error : string).

Definition call (f : list float -> float) (arr : list float) : Completion :=
  Returns (f arr).

Definition fails_explicitly (c : Completion) : Prop :=
  exists error, c = Throws error.

(** ** The format of a percentage *)

Definition is_digit (c : ascii) : bool :=
  (48 <=? nat_of_ascii c)%nat && (nat_of_ascii c <=? 57)%nat.

Fixpoint all_digits (s : string) : bool :=
  match s with
  | EmptyString => true
  | String c rest => is_digit c && all_digits rest
  end.

(** At least one digit (already read when [seen] holds), a point, exactly
    two digits and the sign [%]. *)
Fixpoint digits_point_two (s : string) (seen : bool) : bool :=
  match s with
  | EmptyString => false
  | String c rest =>
      if is_digit c then digits_point_two rest true
      else if Ascii.eqb c "." then
        seen && match rest with
                | String d1 (String d2 (String p EmptyString)) =>
                    is_digit d1 && is_digit d2 && Ascii.eqb p "%"
                | _ => false
                end
      else false
  end.

(** A percentage with two decimal places, after an optional sign. *)
Definition percent_format (s : string) : bool :=
  match s with
  | EmptyString => false
  | String c rest =>
      if Ascii.eqb c "+" || Ascii.eqb c "-" then digits_point_two rest false
      else digits_point_two s false
  end.

(** ** Runtimes for concrete runs *)

(** Every child exits with status 1 after 2 ms and prints nothing that
    parses as a number. *)
Definition failing_node : Node :=
  demo_node ["msvc.exe"; "clang.exe"] 0.25 2000000
            (fun _ => Some "oops") (fun _ => Some 1%Z).

(** Every child is killed when the timeout of 60 s expires: its status is
    [null] and it has printed nothing. *)
Definition timeout_node : Node :=
  demo_node ["msvc.exe"; "clang.exe"] 0.25 60000000000
            (fun _ => None) (fun _ => None).

(** Every child prints the path of its own binary; [coin] decides which
    candidate runs first. *)
Definition echo_node (coin : float) : Node :=
  demo_node ["msvc.exe"; "clang.exe"] coin 2000000
            (fun bin => Some bin) (fun _ => Some 0%Z).

(** The runtime [node] with the exit status of every child replaced. *)
Definition override_status (node : Node)
    (st : string -> list string -> @World node -> option Z) : Node := {|
  World := @World node;
  Number_toString := @Number_toString node;
  parseFloat := @parseFloat node;
  trim := @trim node;
  path_resolve := @path_resolve node;
  existsSync := @existsSync node;
  executable := @executable node;
  hrtime_bigint := @hrtime_bigint node;
  Math_random := @Math_random node;
  spawnSync := fun bin args w =>
    let '((out, err, _), w') := @spawnSync node bin args w in
    ((out, err, st bin args w), w')
|}.

(** Two results of [runTimed] that differ at most in the exit status. *)
Definition same_measurement (t t' : Timed) : Prop :=
  durationMs t = durationMs t' /\ stdout t = stdout t' /\ stderr t = stderr t'.

(** * More of the script *)

(** ** Text *)



(** The sign of plus or minus, one UTF-16 code unit (177). *)
Definition plus_minus : string := String (ascii_of_nat 177) "".

(** ** [formatBytes] (lines 39-43) and [benchBinarySize] (lines 94-108) *)

(** The integer [m * 2^e], when it is one. *)
Definition integer_value (m : positive) (e : Z) : option Z :=
  if (0 <=? e)%Z then Some (Zpos m * 2 ^ e)%Z
  else if (Zpos m mod 2 ^ (- e) =? 0)%Z then Some (Zpos m / 2 ^ (- e))%Z
  else None.

Section Bytes.
Context {node : Node}.
(** [Number::toString(x)] for a finite [x] below [1e21] that is not an
    integer: the shortest decimal that reads back as [x]; not embedded. *)
Variable shortest_decimal : float -> string.
(** [fs.statSync(path).size]; [None] when [statSync] throws. *)
Variable statSync_size : string -> World -> option float.
Variables MSVC_BIN CLANG_BIN : string.

(** [x + ' B'] converts the number with [Number::toString]: an integer
    below [1e21] is printed with all its digits. *)
Definition ToString (x : float) : string :=
  match Prim2SF x with
  | S754_nan => "NaN"
  | S754_infinity s => if s then "-Infinity" else "Infinity"
  | S754_zero _ => "0"
  | S754_finite s m e =>
      (if s then "-" else "") ++
      (if 1e21 <=? abs x then Number_toString (abs x)
       else match integer_value m e with
            | Some n => digits n
            | None => shortest_decimal (abs x)
            end)
  end.

(** [function formatBytes(bytes)] *)
Definition formatBytes (bytes : float) : string :=
  if 1024 * 1024 <=? bytes then toFixed (bytes / (1024 * 1024)) 2 ++ " MB"
  else if 1024 <=? bytes then toFixed (bytes / 1024) 2 ++ " KB"
  else ToString bytes ++ " B".

(** [function benchBinarySize()]; [winner(msvcSize, clangSize)] takes the
    defaults [lowerIsBetter = true], [msvcStd = 0], [clangStd = 0], and the
    row has no [msvcStd] and no [clangStd]. *)
Definition benchBinarySize (w : World) : option Result :=
  match statSync_size MSVC_BIN w with
  | None => None
  | Some msvcSize =>
      match statSync_size CLANG_BIN w with
      | None => None
      | Some clangSize =>
          Some {| name := "Binary Size";
                  msvc := msvcSize;
                  clang := clangSize;
                  msvcFmt := formatBytes msvcSize;
                  clangFmt := formatBytes clangSize;
                  msvcStd := None;
                  clangStd := None;
                  diff := pctDiff msvcSize clangSize;
                  winner_ := winner msvcSize clangSize true 0 0;
                  unit_ := "bytes";
                  lowerIsBetter_ := true |}
      end
  end.
End Bytes.

(** ** The other timing and printing workloads *)

Section Workloads.
Context {node : Node}.
Variables MSVC_BIN CLANG_BIN : string.

(** A workload that measures the duration of each child (lines 110-207):
    warm up, measure, and build the row. *)
Definition timing_workload (title : string) (args : list string) : state World Result :=
  warmup MSVC_BIN CLANG_BIN WARMUP args ;;
  times <- measure_durations MSVC_BIN CLANG_BIN ITERATIONS args ([], []) ;;
  ret (timing_row title times).

(** A workload whose child prints its measurement (lines 278-590). *)
Definition printing_workload (title : string) (args : list string) : state World Result :=
  warmup MSVC_BIN CLANG_BIN WARMUP args ;;
  times <- measure_printed MSVC_BIN CLANG_BIN ITERATIONS args ([], []) ;;
  ret (timing_row title times).

(** [function benchRequireFS()] *)
Definition benchRequireFS : state World Result :=
  timing_workload ("require(" ++ dquote ++ "fs" ++ dquote ++ ") + exit")
                  ["-e"; "const fs = require('fs'); process.exit(0);"].

(** [function benchRequireHeavy()]; [code] is the text of the child's
    script, as it is for the functions below. *)
Definition benchRequireHeavy (code : string) : state World Result :=
  timing_workload "Require 10 core modules" ["-e"; code].

(** [function benchJSON()] *)
Definition benchJSON (code : string) : state World Result :=
  printing_workload "JSON parse+stringify (20k iters)" ["-e"; code].

(** [function benchURLParsing()] *)
Definition benchURLParsing (code : string) : state World Result :=
  printing_workload "URL parsing (50k, Ada C++)" ["-e"; code].

(** [function benchZlib()] *)
Definition benchZlib (code : string) : state World Result :=
  printing_workload "Zlib deflate+inflate 64KB (500x)" ["-e"; code].

(** [function benchTextCodec()] *)
Definition benchTextCodec (code : string) : state World Result :=
  printing_workload "TextEncoder/Decoder (10k iters)" ["-e"; code].

(** [function benchStreamPipe()] *)
Definition benchStreamPipe (code : string) : state World Result :=
  printing_workload "Stream pipe 3-chain (200x100 16KB)" ["-e"; code].
End Workloads.

(** ** The measuring loop of the memory workloads (lines 218-222, 605-609) *)

Section Memory.
Context {node : Node}.
(** The values of the language, as [JSON.parse] returns them. *)
Variable JSValue : Type.
(** [JSON.parse(text)]; [None] when it throws. *)
Variable JSON_parse : string -> option JSValue.
Variables MSVC_BIN CLANG_BIN : string.

(** [try { mem.push(JSON.parse(text)); } catch {}] *)
Definition push_parsed (mem : list JSValue) (text : string) : list JSValue :=
  match JSON_parse text with
  | Some v => (mem ++ [v])%list
  | None => mem
  end.

(** [try { msvcMem.push(JSON.parse(msvcR.stdout.trim())); } catch {}], and
    the same for clang: [mem] is the pair of [msvcMem] and [clangMem], the
    arrays every SampleSet of a memory workload is read from. *)
Fixpoint measure_memory (n : nat) (args : list string)
    (mem : list JSValue * list JSValue)
    : state World (list JSValue * list JSValue) :=
  match n with
  | O => ret mem
  | S n' =>
      both <- runBothTimed MSVC_BIN CLANG_BIN args ;;
      measure_memory n' args
        (push_parsed (fst mem) (trim (stdout (msvc_run both))),
         push_parsed (snd mem) (trim (stdout (clang_run both))))
  end.
End Memory.

(** ** [printTable] (lines 651-677) *)



(** [std ? `${fmt} ±${std}` : fmt]: a missing or empty [std] is left out. *)
Definition with_noise (fmt : string) (std : option string) : string :=
  match std with
  | None => fmt
  | Some "" => fmt
  | Some s => fmt ++ " " ++ plus_minus ++ s
  end.




(** ** Notions for the statements on this code *)

(** The label of the other candidate; a tie stays a tie. *)
Definition swap (label : string) : string :=
  if String.eqb label "MSVC" then "ClangCL"
  else if String.eqb label "ClangCL" then "MSVC"
  else label.

(** [x] is not below zero: a number at or above zero, or [NaN]. *)
Definition not_negative (x : float) : Prop := (x <? 0) = false.

(** The runtime [node] with a record of the binaries it spawned, oldest
    first. *)
Definition logged (node : Node) : Node := {|
  World := (@World node * list string)%type;
  Number_toString := @Number_toString node;
  parseFloat := @parseFloat node;
  trim := @trim node;
  path_resolve := @path_resolve node;
  existsSync := fun p w => @existsSync node p (fst w);
  executable := fun p w => @executable node p (fst w);
  hrtime_bigint := fun w =>
    let (t, w') := @hrtime_bigint node (fst w) in (t, (w', snd w));
  Math_random := fun w =>
    let (r, w') := @Math_random node (fst w) in (r, (w', snd w));
  spawnSync := fun bin args w =>
    let (r, w') := @spawnSync node bin args (fst w) in
    (r, (w', (snd w ++ [bin])%list))
|}.

(** The paired trials of a loop of [n] iterations that starts in the
    world [w], in order: what [runBothTimed] returns at each iteration. *)
Fixpoint trials {node : Node} (MSVC_BIN CLANG_BIN : string) (n : nat)
    (args : list string) (w : World) : list Both :=
  match n with
  | O => []
  | S n' =>
      let (both, w') := runState (runBothTimed MSVC_BIN CLANG_BIN args) w in
      both :: trials MSVC_BIN CLANG_BIN n' args w'
  end.

(** What a trial printed, read as a number, for each candidate. *)
Definition msvc_printed {node : Node} (both : Both) : float :=
  parseFloat (trim (stdout (msvc_run both))).

Definition clang_printed {node : Node} (both : Both) : float :=
  parseFloat (trim (stdout (clang_run both))).

(** The numbers of a list: what is left without [NaN]. *)
Definition numbers (xs : list float) : list float :=
  filter (fun x => negb (is_nan x)) xs.

(** The values of the texts of a list that parse, in order. *)
Definition parsed {V : Type} (parse : string -> option V) (texts : list string)
    : list V :=
  flat_map (fun t => match parse t with Some v => [v] | None => [] end) texts.

(** A record of paired trials: each pair runs the two candidates once
    each, in either order. *)
Inductive paired (MSVC_BIN CLANG_BIN : string) : list string -> Prop :=
  | paired_nil : paired MSVC_BIN CLANG_BIN []
  | paired_msvc_first log :
      paired MSVC_BIN CLANG_BIN log ->
      paired MSVC_BIN CLANG_BIN (MSVC_BIN :: CLANG_BIN :: log)
  | paired_clang_first log :
      paired MSVC_BIN CLANG_BIN log ->
      paired MSVC_BIN CLANG_BIN (CLANG_BIN :: MSVC_BIN :: log).

(** On the runtime with a record, [run] launches [n] pairs of children
    and goes as it does on the runtime without the record: same result,
    same world. *)
Definition launches (node : Node) (MSVC_BIN CLANG_BIN : string) {A : Type}
    (n : nat) (run : forall node : Node, state (@World node) A) : Prop :=
  forall (w : @World node) (log : list string),
  exists spawned,
    paired MSVC_BIN CLANG_BIN spawned
    /\ List.length spawned = (2 * n)%nat
    /\ runState (run (logged node)) (w, log)
       = (fst (runState (run node) w),
          (snd (runState (run node) w), (log ++ spawned)%list)).

(** All samples are above zero, as durations and sizes are. *)
Definition positive_samples (arr : list float) : Prop :=
  Forall (fun x => (0 <? x) = true) arr.

(** * Facts on binary64 numbers *)

Local Open Scope Z_scope.

(** [iter_pos] as an iteration over [nat]. *)
Lemma iter_pos_nat {A} (f : A -> A) (n : positive) (x : A) :
  iter_pos f n x = Nat.iter (Pos.to_nat n) f x.
Proof.
  revert x. induction n as [n IH | n IH |]; intros x; cbn [iter_pos].
  - rewrite !IH, Pos2Nat.inj_xI, <- Nat.iter_add, <- Nat.iter_succ_r.
    f_equal. lia.
  - rewrite !IH, Pos2Nat.inj_xO, <- Nat.iter_add. f_equal. lia.
  - reflexivity.
Qed.

Lemma shr_1_m r : 0 <= shr_m r -> shr_m (shr_1 r) = Z.div2 (shr_m r).
Proof.
  destruct r as [m rb sb]; simpl. intros Hm.
  destruct m as [|p|p]; try lia; [reflexivity|].
  destruct p; reflexivity.
Qed.

Lemma shr_iter_m n r : 0 <= shr_m r ->
  shr_m (Nat.iter n shr_1 r) = Z.shiftr (shr_m r) (Z.of_nat n).
Proof.
  intros Hm. induction n as [|n IH].
  - simpl. reflexivity.
  - rewrite Nat2Z.inj_succ. simpl Nat.iter. rewrite shr_1_m.
    + rewrite IH. rewrite Z.div2_spec. rewrite Z.shiftr_shiftr by lia.
      reflexivity.
    + rewrite IH. apply Z.shiftr_nonneg. exact Hm.
Qed.

Lemma digits2_size p : digits2_pos p = Pos.size p.
Proof. induction p; simpl; congruence. Qed.

Lemma digits2_lower p : 2 ^ (Zpos (digits2_pos p) - 1) <= Zpos p.
Proof.
  rewrite digits2_size.
  pose proof (Pos.size_le p) as H.
  assert (Hz : (2 ^ Zpos (Pos.size p) <= 2 * Zpos p)).
  { change 2 with (Zpos 2) at 1. rewrite <- Pos2Z.inj_pow. 
    change (2 * Zpos p) with (Zpos (2 * p)). apply Pos2Z.pos_le_pos. exact H. }
  replace (Zpos (Pos.size p)) with (Z.succ (Zpos (Pos.size p) - 1)) in Hz by lia.
  rewrite Z.pow_succ_r in Hz by lia. lia.
Qed.

Lemma digits2_upper p : Zpos p < 2 ^ Zpos (digits2_pos p).
Proof.
  rewrite digits2_size.
  pose proof (Pos.size_gt p) as H.
  change 2 with (Zpos 2). rewrite <- Pos2Z.inj_pow. apply Pos2Z.pos_lt_pos. exact H.
Qed.

Lemma shr_record_of_loc_m m l : shr_m (shr_record_of_loc m l) = m.
Proof. destruct l as [|[ | | ]]; reflexivity. Qed.

Lemma shr_positive (p : positive) (l : location) (e n : Z) :
  n < Zpos (digits2_pos p) ->
  exists p', shr_m (fst (shr (shr_record_of_loc (Zpos p) l) e n)) = Zpos p'
             /\ e <= snd (shr (shr_record_of_loc (Zpos p) l) e n).
Proof.
  intros Hn. unfold shr. destruct n as [|q|q]; simpl fst; simpl snd.
  - exists p. rewrite shr_record_of_loc_m. split; [reflexivity | lia].
  - rewrite iter_pos_nat, shr_iter_m by (rewrite shr_record_of_loc_m; lia).
    rewrite shr_record_of_loc_m, positive_nat_Z, Z.shiftr_div_pow2 by lia.
    assert (Hpow : 2 ^ Zpos q <= Zpos p).
    { pose proof (digits2_lower p) as Hl.
      assert (2 ^ Zpos q <= 2 ^ (Zpos (digits2_pos p) - 1)) by (apply Z.pow_le_mono_r; lia).
      lia. }
    assert (Hq : 0 < Zpos p / 2 ^ Zpos q).
    { apply Z.div_str_pos. split; [apply Z.pow_pos_nonneg; lia | exact Hpow]. }
    destruct (Zpos p / 2 ^ Zpos q) as [|p'|p'] eqn:E; try lia.
    exists p'. split; [reflexivity | lia].
  - exists p. rewrite shr_record_of_loc_m. split; [reflexivity | lia].
Qed.

Lemma round_nearest_even_positive p l :
  exists p', round_nearest_even (Zpos p) l = Zpos p'.
Proof.
  destruct l as [|[ | | ]]; unfold round_nearest_even.
  - now exists p.
  - destruct (Z.even _); [now exists p | now exists (p + 1)%positive].
  - now exists p.
  - now exists (p + 1)%positive.
Qed.

Lemma binary_round_aux_signed s m e l :
  emin <= e -> signed_as s (binary_round_aux prec emax s (Zpos m) e l).
Proof.
  intros He. unfold binary_round_aux, shr_fexp.
  destruct (shr_positive m l e (fexp prec emax (Zdigits2 (Zpos m) + e) - e)) as (p1 & Hm1 & He1).
  { unfold fexp, SpecFloat.emin, prec, emax in *. simpl Zdigits2. lia. }
  destruct (shr (shr_record_of_loc (Zpos m) l) e _) as [mrs1 e1]. simpl in Hm1, He1.
  rewrite Hm1.
  destruct (round_nearest_even_positive p1 (loc_of_shr_record mrs1)) as (p2 & Hp2).
  rewrite Hp2.
  destruct (shr_positive p2 loc_Exact e1 (fexp prec emax (Zdigits2 (Zpos p2) + e1) - e1)) as (p3 & Hm3 & He3).
  { unfold fexp, SpecFloat.emin, prec, emax in *. simpl Zdigits2. lia. }
  destruct (shr (shr_record_of_loc (Zpos p2) loc_Exact) e1 _) as [mrs3 e3]. simpl in Hm3, He3.
  rewrite Hm3. destruct (e3 <=? emax - prec); reflexivity.
Qed.

Lemma shl_align_exp m e e' : emin <= e -> emin <= e' -> emin <= snd (shl_align m e e').
Proof.
  intros. unfold shl_align. destruct (e' - e); simpl; lia.
Qed.

Lemma binary_round_signed s m e :
  emin <= e -> signed_as s (binary_round prec emax s m e).
Proof.
  intros He. unfold binary_round.
  pose proof (shl_align_exp m e (fexp prec emax (Zpos (digits2_pos m) + e)) He) as Hs.
  destruct (shl_align m e _) as [mz ez]. simpl in Hs.
  apply binary_round_aux_signed. apply Hs.
  unfold fexp, SpecFloat.emin, prec, emax. lia.
Qed.

Lemma iter_xO_pow2 m d : Zpos (Pos.iter xO m d) = Zpos m * 2 ^ Zpos d.
Proof.
  induction d as [|d IH] using Pos.peano_ind.
  - simpl. lia.
  - rewrite Pos.iter_succ, Pos2Z.inj_succ, Z.pow_succ_r by lia.
    rewrite Pos2Z.inj_xO, IH. lia.
Qed.

Lemma shl_align_fst m e e' :
  e' <= e -> Zpos (fst (shl_align m e e')) = Zpos m * 2 ^ (e - e').
Proof.
  intros He. unfold shl_align. destruct (e' - e) as [|d|d] eqn:E; simpl fst.
  - replace (e - e') with 0 by lia. lia.
  - lia.
  - rewrite iter_xO_pow2. f_equal. f_equal. lia.
Qed.

Lemma canonical_facts m e :
  canonical_mantissa prec emax m e = true ->
  emin <= e /\ Zpos (digits2_pos m) <= prec /\ (emin < e -> Zpos (digits2_pos m) = prec).
Proof.
  unfold canonical_mantissa, fexp, SpecFloat.emin, prec, emax.
  intros H. apply Z.eqb_eq in H. lia.
Qed.

Lemma aligned_lt mx ex my ey :
  canonical_mantissa prec emax mx ex = true ->
  canonical_mantissa prec emax my ey = true ->
  ex < ey -> Zpos mx < Zpos my * 2 ^ (ey - ex).
Proof.
  intros Hx Hy Hlt.
  destruct (canonical_facts _ _ Hx) as (Hex & Hdx & _).
  destruct (canonical_facts _ _ Hy) as (_ & _ & Hdy).
  specialize (Hdy ltac:(lia)).
  pose proof (digits2_upper mx) as Hux.
  pose proof (digits2_lower my) as Hly. rewrite Hdy in Hly.
  assert (H1 : 2 ^ Zpos (digits2_pos mx) <= 2 ^ prec) by (apply Z.pow_le_mono_r; lia).
  assert (H2 : 2 ^ 1 <= 2 ^ (ey - ex)) by (apply Z.pow_le_mono_r; lia).
  assert (H3 : 2 ^ prec = 2 ^ (prec - 1) * 2 ^ 1) by reflexivity.
  assert (H4 : 2 ^ (prec - 1) * 2 ^ 1 <= Zpos my * 2 ^ (ey - ex)).
  { apply Z.mul_le_mono_nonneg; lia. }
  lia.
Qed.

Lemma aligned_positive_compare mx ex my ey :
  canonical_mantissa prec emax mx ex = true ->
  canonical_mantissa prec emax my ey = true ->
  match ex ?= ey with
  | Eq => Pos.compare_cont Eq mx my
  | Lt => Lt
  | Gt => Gt
  end = (aligned false mx ex (Z.min ex ey) ?= aligned false my ey (Z.min ex ey)).
Proof.
  intros Hx Hy. unfold aligned, cond_Zopp.
  rewrite !shl_align_fst by lia.
  destruct (Z.compare_spec ex ey) as [E | E | E].
  - subst ey. rewrite Z.min_id, Z.sub_diag, !Z.mul_1_r. reflexivity.
  - rewrite Z.min_l by lia. rewrite Z.sub_diag, Z.mul_1_r.
    symmetry. apply Z.compare_lt_iff. now apply aligned_lt.
  - rewrite Z.min_r by lia. rewrite Z.sub_diag, Z.mul_1_r.
    symmetry. apply Z.compare_gt_iff. now apply aligned_lt.
Qed.

Lemma SFcompare_finite sx mx ex sy my ey :
  canonical_mantissa prec emax mx ex = true ->
  canonical_mantissa prec emax my ey = true ->
  SFcompare (S754_finite sx mx ex) (S754_finite sy my ey)
  = Some (aligned sx mx ex (Z.min ex ey) ?= aligned sy my ey (Z.min ex ey)).
Proof.
  intros Hx Hy. pose proof (aligned_positive_compare mx ex my ey Hx Hy) as Hc.
  unfold aligned, cond_Zopp in *.
  destruct sx, sy; cbn [SFcompare]; f_equal; try reflexivity.
  - rewrite Z.compare_opp.
    rewrite (Z.compare_antisym (Zpos (fst (shl_align mx ex (Z.min ex ey))))), <- Hc.
    destruct (ex ?= ey); reflexivity.
  - exact Hc.
Qed.

(** ** Division by one *)

(** The number of binary digits is fixed by the two powers around. *)
Lemma digits2_unique p d :
  2 ^ (d - 1) <= Zpos p < 2 ^ d -> Zpos (digits2_pos p) = d.
Proof.
  intros [Hl Hu].
  pose proof (digits2_lower p) as Hl'. pose proof (digits2_upper p) as Hu'.
  assert (Hd : 0 < d).
  { destruct (Z.ltb_spec 0 d); [assumption|].
    rewrite Z.pow_neg_r in Hl by lia.
    destruct (Z.eq_dec d 0) as [-> | N]; [simpl in Hu; lia|].
    rewrite Z.pow_neg_r in Hu by lia. lia. }
  destruct (Z.lt_trichotomy (Zpos (digits2_pos p)) d) as [H | [H | H]]; [|exact H|].
  - assert (2 ^ Zpos (digits2_pos p) <= 2 ^ (d - 1)) by (apply Z.pow_le_mono_r; lia). lia.
  - assert (2 ^ d <= 2 ^ (Zpos (digits2_pos p) - 1)) by (apply Z.pow_le_mono_r; lia). lia.
Qed.

Lemma digits2_shift p t q :
  0 <= t -> Zpos q = Zpos p * 2 ^ t ->
  Zpos (digits2_pos q) = Zpos (digits2_pos p) + t.
Proof.
  intros Ht E. apply digits2_unique. rewrite E.
  pose proof (digits2_lower p) as Hl. pose proof (digits2_upper p) as Hu.
  assert (Hp : 0 < 2 ^ t) by (apply Z.pow_pos_nonneg; lia).
  replace (Zpos (digits2_pos p) + t - 1) with ((Zpos (digits2_pos p) - 1) + t) by lia.
  rewrite !Z.pow_add_r by lia. split; nia.
Qed.

(** Shifting out zeros loses nothing. *)
Lemma shr_exact (t : nat) (M : positive) (q : Z) :
  q = Zpos M * 2 ^ Z.of_nat t ->
  Nat.iter t shr_1 (Build_shr_record q false false) = Build_shr_record (Zpos M) false false.
Proof.
  revert q. induction t as [|t IH]; intros q E.
  - simpl in E. cbn. f_equal. lia.
  - rewrite Nat.iter_succ_r.
    rewrite Nat2Z.inj_succ, Z.pow_succ_r in E by lia.
    assert (Hq : exists r, q = Zpos (xO r) /\ Zpos r = Zpos M * 2 ^ Z.of_nat t).
    { assert (0 < Zpos M * 2 ^ Z.of_nat t) by (apply Z.mul_pos_pos; [lia | apply Z.pow_pos_nonneg; lia]).
      destruct (Zpos M * 2 ^ Z.of_nat t) as [|r|r] eqn:Er; try lia.
      exists r. split; [|reflexivity]. lia. }
    destruct Hq as (r & -> & Er). cbn [shr_1 orb]. now apply IH.
Qed.

Lemma shr_by_exact (M : positive) (q e t : Z) :
  0 <= t -> q = Zpos M * 2 ^ t ->
  shr (Build_shr_record q false false) e t
  = (Build_shr_record (Zpos M) false false, e + t).
Proof.
  intros Ht E. unfold shr. destruct t as [|p|p]; try lia.
  - simpl in E. rewrite Z.add_0_r. f_equal. f_equal. lia.
  - f_equal. rewrite iter_pos_nat. apply shr_exact.
    now rewrite positive_nat_Z.
Qed.

Lemma SFdiv_one s m e :
  bounded prec emax m e = true ->
  SFdiv prec emax (S754_finite s m e) (S754_finite false 4503599627370496 (-52))
  = S754_finite s m e.
Proof.
  intros Hb. unfold bounded in Hb. apply andb_prop in Hb. destruct Hb as [Hc He].
  pose proof Hc as Hcan. unfold canonical_mantissa in Hcan. apply Z.eqb_eq in Hcan.
  destruct (canonical_facts _ _ Hc) as (Hemin & Hd & _).
  unfold SFdiv, SFdiv_core_binary. cbn [Zdigits2].
  change (Zpos (digits2_pos 4503599627370496)) with 53.
  set (d1 := Zpos (digits2_pos m)) in *.
  set (e' := Z.min (fexp prec emax (d1 + e - (53 + -52))) (e - -52)).
  assert (He' : e' = Z.max (d1 + e - 54) emin).
  { unfold e', fexp, SpecFloat.emin, prec, emax in *. lia. }
  assert (Ht : 0 <= e - e').
  { unfold fexp, SpecFloat.emin, prec, emax in *. lia. }
  set (t := e - e') in *.
  assert (Hs : e - -52 - e' = 52 + t) by (unfold t; lia).
  rewrite Hs.
  destruct (52 + t) as [|p|p] eqn:Ep; try lia.
  rewrite Z.shiftl_mul_pow2 by lia. rewrite <- Ep.
  assert (Hdiv : Z.div_eucl (Zpos m * 2 ^ (52 + t)) 4503599627370496
                 = (Zpos m * 2 ^ t, 0)).
  { assert (E : Zpos m * 2 ^ (52 + t) = (Zpos m * 2 ^ t) * 4503599627370496).
    { rewrite Z.pow_add_r by lia. change (2 ^ 52) with 4503599627370496. ring. }
    rewrite E.
    pose proof (Z.div_mul (Zpos m * 2 ^ t) 4503599627370496 ltac:(lia)) as Hq.
    pose proof (Z.mod_mul (Zpos m * 2 ^ t) 4503599627370496 ltac:(lia)) as Hr.
    unfold Z.div, Z.modulo in Hq, Hr.
    destruct (Z.div_eucl _ _) as [q r]. now subst. }
  rewrite Hdiv. change (new_location 4503599627370496 0) with loc_Exact.
  assert (Hq : exists q, Zpos q = Zpos m * 2 ^ t).
  { assert (0 < Zpos m * 2 ^ t) by (apply Z.mul_pos_pos; [lia | apply Z.pow_pos_nonneg; lia]).
    destruct (Zpos m * 2 ^ t) as [|q|q]; try lia. now exists q. }
  destruct Hq as (q & Eq). rewrite <- Eq.
  unfold binary_round_aux, shr_fexp. cbn [Zdigits2 shr_record_of_loc].
  rewrite (digits2_shift m t q Ht Eq). fold d1.
  replace (d1 + t + e') with (d1 + e) by (unfold t; lia).
  rewrite Hcan. fold t.
  rewrite (shr_by_exact m (Zpos q) e' t Ht Eq).
  cbn [shr_m loc_of_shr_record round_nearest_even Zdigits2 shr_record_of_loc].
  fold d1. replace (e' + t) with e by (unfold t; lia).
  rewrite Hcan, Z.sub_diag. cbn [shr shr_m]. rewrite He.
  now destruct s.
Qed.

Lemma signed_as_ltb_zero s r :
  signed_as s r -> SFltb r (S754_zero false) = s.
Proof.
  destruct r as [z | i | | s' m e]; simpl; try contradiction;
    intros ->; destruct s; reflexivity.
Qed.

Lemma SFsub_negative x y :
  valid_binary x = true -> valid_binary y = true ->
  SFltb (SF64sub x y) (S754_zero false) = SFltb x y.
Proof.
  intros Vx Vy.
  destruct x as [sx | sx | | sx mx ex], y as [sy | sy | | sy my ey];
    try reflexivity;
    try (destruct sx; reflexivity);
    try (destruct sy; reflexivity);
    try (destruct sx, sy; reflexivity).
  simpl in Vx, Vy. unfold bounded in Vx, Vy.
  apply andb_prop in Vx, Vy. destruct Vx as [Cx _], Vy as [Cy _].
  unfold SFltb at 2. rewrite (SFcompare_finite _ _ _ _ _ _ Cx Cy).
  unfold SF64sub, SFsub. fold (aligned sx mx ex (Z.min ex ey)).
  fold (aligned sy my ey (Z.min ex ey)).
  set (X := aligned sx mx ex (Z.min ex ey)).
  set (Y := aligned sy my ey (Z.min ex ey)).
  assert (Hez : emin <= Z.min ex ey).
  { destruct (canonical_facts _ _ Cx) as (? & _), (canonical_facts _ _ Cy) as (? & _). lia. }
  destruct (Z.compare_spec X Y) as [E | E | E].
  - replace (X - Y) with 0 by lia. reflexivity.
  - destruct (X - Y) as [|p|p] eqn:D; try lia.
    apply signed_as_ltb_zero. simpl. now apply binary_round_signed.
  - destruct (X - Y) as [|p|p] eqn:D; try lia.
    apply (signed_as_ltb_zero false). simpl. now apply binary_round_signed.
Qed.

Local Open Scope float_scope.

Lemma sub_ltb_zero (a b : float) : (a - b <? 0) = (a <? b).
Proof.
  rewrite !ltb_spec, sub_spec.
  change (Prim2SF 0) with (S754_zero false).
  apply SFsub_negative; apply Prim2SF_valid.
Qed.

(** ** Comparisons are comparisons of positions *)

Lemma finite_bounds s m e :
  valid_binary (S754_finite s m e) = true ->
  (emin <= e <= emax - prec /\ 0 < Zpos m < 2 ^ 53)%Z.
Proof.
  intros H. cbn [valid_binary] in H. unfold bounded in H.
  apply andb_prop in H. destruct H as [C E].
  destruct (canonical_facts _ _ C) as (He & Hd & _).
  apply Z.leb_le in E.
  pose proof (digits2_upper m) as Hu.
  assert (2 ^ Zpos (digits2_pos m) <= 2 ^ prec)%Z by (apply Z.pow_le_mono_r; lia).
  change (2 ^ prec)%Z with (2 ^ 53)%Z in *. lia.
Qed.

Lemma SFcompare_key x y :
  valid_binary x = true -> valid_binary y = true ->
  x <> S754_nan -> y <> S754_nan ->
  SFcompare x y = Some (SFkey x ?= SFkey y)%Z.
Proof.
  intros Vx Vy Nx Ny.
  destruct x as [sx | sx | | sx mx ex]; try congruence;
  destruct y as [sy | sy | | sy my ey]; try congruence;
    try (apply finite_bounds in Vx); try (apply finite_bounds in Vy);
    unfold SFkey, cond_Zopp, SpecFloat.emin, emax, prec in *;
    change (2 ^ 53)%Z with 9007199254740992%Z in *;
    change (2 ^ 65)%Z with 36893488147419103232%Z in *;
    cbn [SFcompare]; f_equal; symmetry.
  all: try (destruct sx); try (destruct sy);
    try reflexivity;
    try (apply Z.compare_lt_iff; lia);
    try (apply Z.compare_gt_iff; lia).
  - destruct (Z.compare_spec ex ey) as [E | E | E].
    + subst ey. rewrite Z.compare_opp, Z.add_compare_mono_l.
      rewrite Pos.compare_cont_spec. simpl.
      rewrite (Pos.compare_antisym mx my).
      destruct (mx ?= my)%positive; reflexivity.
    + apply Z.compare_gt_iff; lia.
    + apply Z.compare_lt_iff; lia.
  - destruct (Z.compare_spec ex ey) as [E | E | E].
    + subst ey. rewrite Z.add_compare_mono_l.
      rewrite Pos.compare_cont_spec. simpl.
      destruct (mx ?= my)%positive; reflexivity.
    + apply Z.compare_lt_iff; lia.
    + apply Z.compare_gt_iff; lia.
Qed.

Local Open Scope float_scope.

Lemma is_nan_true x : is_nan x = true <-> Prim2SF x = S754_nan.
Proof.
  unfold is_nan. rewrite eqb_spec. unfold SFeqb.
  destruct (Prim2SF x) as [s | s | | s m e] eqn:E.
  - simpl. split; discriminate.
  - destruct s; simpl; split; discriminate.
  - simpl. split; reflexivity.
  - rewrite SFcompare_key; try (rewrite <- E; apply Prim2SF_valid); try discriminate.
    rewrite Z.compare_refl. simpl. split; discriminate.
Qed.

Lemma is_nan_false x : is_nan x = false <-> Prim2SF x <> S754_nan.
Proof.
  rewrite <- is_nan_true. destruct (is_nan x); split; congruence.
Qed.

Lemma compare_key x y :
  is_nan x = false -> is_nan y = false ->
  SFcompare (Prim2SF x) (Prim2SF y) = Some (key x ?= key y)%Z.
Proof.
  intros Hx Hy. apply SFcompare_key; try apply Prim2SF_valid;
    now apply is_nan_false.
Qed.

Lemma ltb_key x y :
  is_nan x = false -> is_nan y = false -> (x <? y) = (key x <? key y)%Z.
Proof.
  intros Hx Hy. rewrite ltb_spec. unfold SFltb, Z.ltb.
  rewrite compare_key by assumption. reflexivity.
Qed.

Lemma leb_key x y :
  is_nan x = false -> is_nan y = false -> (x <=? y) = (key x <=? key y)%Z.
Proof.
  intros Hx Hy. rewrite leb_spec. unfold SFleb, Z.leb.
  rewrite compare_key by assumption. destruct (key x ?= key y)%Z; reflexivity.
Qed.

Lemma eqb_key x y :
  is_nan x = false -> is_nan y = false -> (x =? y) = (key x =? key y)%Z.
Proof.
  intros Hx Hy. rewrite eqb_spec. unfold SFeqb.
  rewrite compare_key by assumption.
  destruct (Z.compare_spec (key x) (key y)) as [E | E | E]; symmetry;
    [apply Z.eqb_eq; assumption | apply Z.eqb_neq; lia | apply Z.eqb_neq; lia].
Qed.

Lemma compare_nan x y :
  is_nan x = true \/ is_nan y = true ->
  SFcompare (Prim2SF x) (Prim2SF y) = None.
Proof.
  rewrite !is_nan_true. intros [H | H]; rewrite H.
  - reflexivity.
  - destruct (Prim2SF x); reflexivity.
Qed.

Lemma ltb_nan x y : is_nan x = true \/ is_nan y = true -> (x <? y) = false.
Proof. intros H. rewrite ltb_spec. unfold SFltb. now rewrite compare_nan. Qed.

Lemma leb_nan x y : is_nan x = true \/ is_nan y = true -> (x <=? y) = false.
Proof. intros H. rewrite leb_spec. unfold SFleb. now rewrite compare_nan. Qed.

Lemma eqb_nan x y : is_nan x = true \/ is_nan y = true -> (x =? y) = false.
Proof. intros H. rewrite eqb_spec. unfold SFeqb. now rewrite compare_nan. Qed.

Lemma ltb_true_numeric x y :
  (x <? y) = true -> is_nan x = false /\ is_nan y = false.
Proof.
  intros H. destruct (is_nan x) eqn:Ex; [rewrite ltb_nan in H by auto; discriminate|].
  destruct (is_nan y) eqn:Ey; [rewrite ltb_nan in H by auto; discriminate|].
  split; reflexivity.
Qed.

Lemma key_zero : key 0 = 0%Z.
Proof. reflexivity. Qed.

Lemma key_abs x : (0 <= key (abs x))%Z.
Proof.
  unfold key. rewrite abs_spec.
  pose proof (Prim2SF_valid x) as V.
  destruct (Prim2SF x) as [s | s | | s m e]; cbn [SFabs SFkey cond_Zopp];
    try (apply finite_bounds in V);
    unfold SpecFloat.emin, emax, prec in *;
    change (2 ^ 53)%Z with 9007199254740992%Z in *;
    change (2 ^ 65)%Z with 36893488147419103232%Z in *; lia.
Qed.

Lemma is_nan_abs x : is_nan (abs x) = is_nan x.
Proof.
  destruct (is_nan x) eqn:E.
  - apply is_nan_true. rewrite abs_spec. apply is_nan_true in E. now rewrite E.
  - apply is_nan_false. rewrite abs_spec. apply is_nan_false in E.
    destruct (Prim2SF x); simpl; congruence.
Qed.

(** ** The deviation of a single sample *)


Lemma single_sample_deviation (x : float) :
  sqrt ((0 + (x - (0 + x) / 1) * (x - (0 + x) / 1)) / 0) = nan.
Proof.
  apply Prim2SF_inj.
  rewrite sqrt_spec, div_spec, add_spec, mul_spec, sub_spec, div_spec, add_spec.
  change (Prim2SF 0) with (S754_zero false).
  change (Prim2SF 1) with (S754_finite false 4503599627370496 (-52)).
  change (Prim2SF nan) with S754_nan.
  pose proof (Prim2SF_valid x) as V.
  destruct (Prim2SF x) as [s | s | | s m e].
  - destruct s; reflexivity.
  - destruct s; reflexivity.
  - reflexivity.
  - cbn [SF64add SFadd]. unfold SF64div. rewrite (SFdiv_one s m e V).
    unfold SF64sub, SFsub. rewrite Z.sub_diag. reflexivity.
Qed.

(** * The claims *)

(** ** Winner Adjudicator *)

Lemma is_nan_zero : is_nan 0 = false.
Proof. reflexivity. Qed.

Lemma Math_max_cases a b :
  is_nan (Math_max a b) = false -> Math_max a b = a \/ Math_max a b = b.
Proof.
  unfold Math_max. destruct (is_nan a || is_nan b).
  - discriminate.
  - intros _. destruct (a <? b); [now right|].
    destruct (b <? a); [now left|]. destruct (get_sign a); auto.
Qed.

(** The test the code makes, [msvcStd > 0 || clangStd > 0] and then
    [|a - b| < Math.max(...)], is the test on the larger noise figure. *)
Lemma noise_gate_test a b sa sb :
  ((0 <? sa) || (0 <? sb)) && (abs (a - b) <? Math_max sa sb)
  = within_noise a b sa sb.
Proof.
  unfold within_noise.
  destruct (abs (a - b) <? Math_max sa sb) eqn:D;
    [rewrite !andb_true_r | now rewrite !andb_false_r].
  destruct (ltb_true_numeric _ _ D) as [Nd Nm].
  rewrite ltb_key in D by assumption. apply Z.ltb_lt in D.
  pose proof (key_abs (a - b)) as Hd.
  assert (Hm : (0 <? Math_max sa sb) = true).
  { rewrite ltb_key by auto using is_nan_zero. rewrite key_zero.
    apply Z.ltb_lt. lia. }
  rewrite Hm.
  destruct (Math_max_cases sa sb Nm) as [E | E]; rewrite E in Hm; rewrite Hm;
    auto using orb_true_r.
Qed.

Lemma ltb_asym x y : (x <? y) = true -> (y <? x) = false.
Proof.
  intros H. destruct (ltb_true_numeric _ _ H) as [Nx Ny].
  rewrite ltb_key in * by assumption.
  apply Z.ltb_lt in H. apply Z.ltb_ge. lia.
Qed.

Lemma eqb_not_ltb x y : (x =? y) = true -> (x <? y) = false /\ (y <? x) = false.
Proof.
  intros H.
  destruct (is_nan x) eqn:Nx; [rewrite eqb_nan in H by auto; discriminate|].
  destruct (is_nan y) eqn:Ny; [rewrite eqb_nan in H by auto; discriminate|].
  rewrite eqb_key in H by assumption. rewrite !ltb_key by assumption.
  apply Z.eqb_eq in H. split; apply Z.ltb_ge; lia.
Qed.

(** C1, as the specification states it, fails on its own example: with
    the smaller value better, candidate A's 100 beats candidate B's 105. *)
Lemma adjudicate_100_105_is_not_B : adjudicate 100 105 true 1 1 <> B.
Proof. vm_compute. discriminate. Qed.

(** C1 (amended): for all values, direction flag and noise figures, the
    adjudicator returns a tie (the label [~Tie]) whenever
    [max(stdA, stdB) > 0] and [|valueA - valueB| < max(stdA, stdB)];
    otherwise the smaller value's candidate wins when [lowerIsBetter]
    holds, the larger value's candidate wins when it does not, and exact
    equality returns [Tie].  In particular
    [adjudicate(100, 105, true, 1, 1) = A]. *)
Theorem winner_adjudication (valueA valueB : float) (lowerIsBetter : bool)
                            (stdA stdB : float) :
  (within_noise valueA valueB stdA stdB = true ->
     winner valueA valueB lowerIsBetter stdA stdB = "~Tie"
     /\ adjudicate valueA valueB lowerIsBetter stdA stdB = Tie)
  /\ (within_noise valueA valueB stdA stdB = false ->
       ((valueA <? valueB) = true ->
          adjudicate valueA valueB lowerIsBetter stdA stdB
          = if lowerIsBetter then A else B)
       /\ ((valueB <? valueA) = true ->
          adjudicate valueA valueB lowerIsBetter stdA stdB
          = if lowerIsBetter then B else A)
       /\ ((valueA =? valueB) = true ->
          winner valueA valueB lowerIsBetter stdA stdB = "Tie"
          /\ adjudicate valueA valueB lowerIsBetter stdA stdB = Tie))
  /\ adjudicate 100 105 true 1 1 = A.
Proof.
  unfold adjudicate, winner. rewrite noise_gate_test.
  split; [|split].
  - intros ->. split; reflexivity.
  - intros ->. split; [|split].
    + intros H. rewrite H, (ltb_asym _ _ H). now destruct lowerIsBetter.
    + intros H. rewrite H, (ltb_asym _ _ H). now destruct lowerIsBetter.
    + intros H. destruct (eqb_not_ltb _ _ H) as [-> ->].
      now destruct lowerIsBetter.
  - vm_compute. reflexivity.
Qed.

(** ** Aggregator *)

Lemma tally_from (rows : list Result) (t0 : Tally) :
  fold_left tally_step rows t0 =
  {| msvcWins := (msvcWins t0 + length_ (won_by A rows))%Z;
     clangWins := (clangWins t0 + length_ (won_by B rows))%Z;
     ties := (ties t0 + length_ (won_by Tie rows))%Z;
     msvcAdvantage := fsum_from (msvcAdvantage t0) (map pct (won_by A rows));
     clangAdvantage := fsum_from (clangAdvantage t0) (map pct (won_by B rows)) |}.
Proof.
  revert t0. induction rows as [|r rows IH]; intros t0.
  - destruct t0. unfold length_. cbn. f_equal; lia.
  - cbn [fold_left]. rewrite IH. unfold tally_step, won_by, verdict, length_.
    cbn [filter].
    destruct (String.eqb (winner_ r) "MSVC");
      [| destruct (String.eqb (winner_ r) "ClangCL")];
      cbn; f_equal; lia.
Qed.

Lemma tally_spec (rows : list Result) :
  tally rows =
  {| msvcWins := length_ (won_by A rows);
     clangWins := length_ (won_by B rows);
     ties := length_ (won_by Tie rows);
     msvcAdvantage := fsum (map pct (won_by A rows));
     clangAdvantage := fsum (map pct (won_by B rows)) |}.
Proof. unfold tally. now rewrite tally_from. Qed.

Lemma positive_test x : (x <=? 0) = true -> (0 <? x) = false.
Proof.
  intros H.
  destruct (is_nan x) eqn:N; [now apply ltb_nan; auto|].
  rewrite leb_key in H by auto using is_nan_zero.
  rewrite ltb_key by auto using is_nan_zero.
  apply Z.leb_le in H. apply Z.ltb_ge. exact H.
Qed.

Lemma zero_test x : (x =? 0) = true -> (0 <? x) = false.
Proof. intros H. now destruct (eqb_not_ltb _ _ H). Qed.

(** C2: the aggregator adds each row's absolute percentage gap (over
    candidate A's value, zero when that value is not positive) to the
    winner's weighted advantage; ties add to neither total and are counted;
    a share is the candidate's total over the grand total as a percentage,
    50/50 when the grand total is zero; the overall verdict is the larger
    total's candidate, or a tie when the totals are equal.  For the rows
    (A, 5%), (B, 15%), (tie): advantages 5 and 15, shares 25% and 75%,
    overall verdict B. *)
Theorem weighted_aggregation {node : Node} (rows : list Result) :
  let t := totals (summary rows) in
  let total := msvcAdvantage t + clangAdvantage t in
  (msvcAdvantage t = fsum (map pct (won_by A rows))
   /\ clangAdvantage t = fsum (map pct (won_by B rows))
   /\ ties t = length_ (won_by Tie rows))
  /\ (forall r, pct r = if 0 <? msvc r
                        then abs ((clang r - msvc r) / msvc r * 100) else 0)
  /\ (forall r, (msvc r <=? 0) = true -> pct r = 0)
  /\ ((0 <? total) = true ->
       msvcShare (summary rows) = toFixed (msvcAdvantage t / total * 100) 1
       /\ clangShare (summary rows) = toFixed (clangAdvantage t / total * 100) 1)
  /\ ((total =? 0) = true ->
       msvcShare (summary rows) = "50.0" /\ clangShare (summary rows) = "50.0")
  /\ ((clangAdvantage t <? msvcAdvantage t) = true ->
       verdict (overallWinner (summary rows)) = A)
  /\ ((msvcAdvantage t <? clangAdvantage t) = true ->
       verdict (overallWinner (summary rows)) = B)
  /\ ((msvcAdvantage t =? clangAdvantage t) = true ->
       verdict (overallWinner (summary rows)) = Tie)
  /\ (map (fun r => verdict (winner_ r)) three_rows = [A; B; Tie]
      /\ map pct three_rows = [5; 15; 0.5]
      /\ msvcAdvantage (totals (summary three_rows)) = 5
      /\ clangAdvantage (totals (summary three_rows)) = 15
      /\ ties (totals (summary three_rows)) = 1%Z
      /\ msvcShare (summary three_rows) = "25.0"
      /\ clangShare (summary three_rows) = "75.0"
      /\ verdict (overallWinner (summary three_rows)) = B).
Proof.
  cbn zeta. unfold summary. cbn [totals msvcShare clangShare overallWinner].
  rewrite !tally_spec. cbn [msvcAdvantage clangAdvantage ties].
  split. { repeat split. }
  split. { intros r. reflexivity. }
  split. { intros r H. unfold pct. now rewrite positive_test. }
  split. { intros H. rewrite H. split; reflexivity. }
  split. { intros H. rewrite (zero_test _ H). split; reflexivity. }
  split. { intros H. now rewrite H. }
  split. { intros H. now rewrite (ltb_asym _ _ H), H. }
  split. { intros H. now destruct (eqb_not_ltb _ _ H) as [-> ->]. }
  vm_compute. repeat split.
Qed.

(** C10: in the summary loop every label that is neither [MSVC] nor
    [ClangCL] is counted as a tie, the exact-equality label [Tie] and the
    noise-gate label [~Tie] among them, so the three counters add up to
    the number of rows. *)
Theorem counters_cover_all_rows (rows : list Result) :
  (forall t r, winner_ r <> "MSVC" -> winner_ r <> "ClangCL" ->
     tally_step t r =
     {| msvcWins := msvcWins t; clangWins := clangWins t;
        ties := (ties t + 1)%Z;
        msvcAdvantage := msvcAdvantage t;
        clangAdvantage := clangAdvantage t |})
  /\ (verdict "Tie" = Tie /\ verdict "~Tie" = Tie
      /\ winner 100 100 true 0 0 = "Tie"
      /\ winner 100 100.5 true 2 2 = "~Tie")
  /\ (msvcWins (tally rows) + clangWins (tally rows) + ties (tally rows)
      = length_ rows)%Z.
Proof.
  split; [|split].
  - intros t r HA HB. unfold tally_step.
    apply String.eqb_neq in HA, HB. now rewrite HA, HB.
  - repeat split; reflexivity.
  - rewrite tally_spec. cbn [msvcWins clangWins ties].
    unfold length_, won_by. clear. induction rows as [|r rows IH].
    + reflexivity.
    + cbn [filter List.length]. destruct (verdict (winner_ r));
        cbn [Verdict_eqb List.length]; lia.
Qed.

(** ** Statistics Engine: failure on too few samples *)

(** C3, as the specification states it, fails: the median of an empty
    SampleSet is returned, and it is [NaN]. *)
Lemma median_of_nothing_returns_NaN :
  ~ fails_explicitly (call median []) /\ call median [] = Returns nan.
Proof.
  split.
  - intros [e H]. discriminate H.
  - reflexivity.
Qed.

(** C3 (amended): no reduction fails.  [median] and [mean] of an empty
    SampleSet return [NaN], [stddev] of a one-element SampleSet returns
    [NaN], and [stddev] of an empty SampleSet returns [-0]. *)
Theorem reductions_never_fail :
  call median [] = Returns nan
  /\ call mean [] = Returns nan
  /\ call stddev [] = Returns (-0)
  /\ (forall x, call stddev [x] = Returns nan)
  /\ (forall f arr, ~ fails_explicitly (call f arr)).
Proof.
  repeat split; try reflexivity.
  - intros x. unfold call. f_equal. apply single_sample_deviation.
  - intros f arr [e H]. discriminate H.
Qed.

(** ** Statistics Engine: the sort *)

Section SortFacts.
Context {T : Type} `{Arith T}.
Variable cmp : T -> T -> T.

Lemma sort_insert_perm x l : Permutation (x :: l) (sort_insert cmp x l).
Proof.
  induction l as [|y l IH]; cbn [sort_insert].
  - reflexivity.
  - destruct (less (cmp y x) (lit 0)).
    + rewrite perm_swap. now apply perm_skip.
    + reflexivity.
Qed.

Lemma sort_perm l : Permutation l (sort cmp l).
Proof.
  induction l as [|x l IH]; cbn [sort].
  - reflexivity.
  - rewrite <- sort_insert_perm. now apply perm_skip.
Qed.

Lemma sort_length l : length_ (sort cmp l) = length_ l.
Proof. unfold length_. f_equal. symmetry. apply Permutation_length, sort_perm. Qed.
End SortFacts.

Lemma at_in_range {T} (l : list T) (i : Z) :
  (0 <= i < length_ l)%Z ->
  exists v, at_ l i = Some v /\ nth_error l (Z.to_nat i) = Some v /\ In v l.
Proof.
  intros Hi. unfold at_, length_ in *.
  destruct (Z.ltb_spec i 0); [lia|].
  destruct (nth_error l (Z.to_nat i)) as [v|] eqn:E.
  - exists v. repeat split. eapply nth_error_In, E.
  - apply nth_error_None in E. lia.
Qed.

(** The two cases of [median] on a SampleSet that is not empty. *)
Lemma median_cases {T} `{Arith T} (arr : list T) :
  arr <> [] ->
  let sorted := sort (fun a b => sub a b) arr in
  let mid := (length_ arr / 2)%Z in
  ((length_ arr mod 2 = 1)%Z
   /\ exists v, nth_error sorted (Z.to_nat mid) = Some v /\ In v arr
                /\ median arr = v)
  \/ ((length_ arr mod 2 = 0)%Z
      /\ exists a b, nth_error sorted (Z.to_nat (mid - 1)) = Some a
                     /\ nth_error sorted (Z.to_nat mid) = Some b
                     /\ In a arr /\ In b arr
                     /\ median arr = div (add a b) (lit 2)).
Proof.
  intros Hne sorted mid. unfold median. fold sorted.
  assert (Hlen : length_ sorted = length_ arr) by apply sort_length.
  rewrite Hlen. fold mid.
  assert (Hpos : (0 < length_ arr)%Z).
  { destruct arr; [congruence | unfold length_; cbn; lia]. }
  assert (Hin : forall v, In v sorted -> In v arr).
  { intros v. apply Permutation_in. symmetry. apply sort_perm. }
  destruct (Z.eqb_spec (length_ arr mod 2) 0) as [E | E]; cbn [negb].
  - right. split; [exact E|].
    assert (Hmid : (length_ arr = 2 * mid)%Z).
    { unfold mid. apply Z.div_exact; [lia | exact E]. } 
    destruct (at_in_range sorted (mid - 1)) as (a & Ha & Hna & Ia); [lia|].
    destruct (at_in_range sorted mid) as (b & Hb & Hnb & Ib); [lia|].
    exists a, b. rewrite Ha, Hb. auto 10.
  - left. pose proof (Z.mod_pos_bound (length_ arr) 2 ltac:(lia)).
    split; [lia|].
    pose proof (Z.div_mod (length_ arr) 2 ltac:(lia)). fold mid in H1.
    destruct (at_in_range sorted mid) as (v & Hv & Hnv & Iv); [lia|].
    exists v. rewrite Hv. auto.
Qed.

(** On binary64 the comparator [(a, b) => a - b] is negative exactly when
    [a < b]. *)
Lemma comparator_test (x y : float) : less (sub y x) (lit 0%Z) = (y <? x).
Proof. apply sub_ltb_zero. Qed.

Lemma fle_key x y :
  is_nan x = false -> is_nan y = false -> fle x y <-> (key x <= key y)%Z.
Proof.
  intros Nx Ny. unfold fle. rewrite leb_key by assumption. apply Z.leb_le.
Qed.

Lemma numeric_perm l l' : Permutation l l' -> numeric l -> numeric l'.
Proof. intros P. unfold numeric. now apply Permutation_Forall. Qed.

Lemma sort_insert_sorted (x : float) (l : list float) :
  is_nan x = false -> numeric l -> StronglySorted fle l ->
  StronglySorted fle (sort_insert (fun a b => sub a b) x l).
Proof.
  intros Nx Nl Sl. induction l as [|y l IH]; cbn [sort_insert].
  - repeat constructor.
  - inversion Nl as [|? ? Ny Nl']; subst. inversion Sl as [|? ? Sl' Hy]; subst.
    rewrite comparator_test.
    destruct (y <? x) eqn:E.
    + constructor; [now apply IH|].
      apply (Permutation_Forall (sort_insert_perm _ x l)).
      constructor; [|exact Hy].
      apply fle_key; try assumption.
      rewrite ltb_key in E by assumption. apply Z.ltb_lt in E. lia.
    + rewrite ltb_key in E by assumption. apply Z.ltb_ge in E.
      constructor; [exact Sl|].
      constructor; [now apply fle_key|].
      rewrite Forall_forall in *. intros z Hz.
      specialize (Hy z Hz). specialize (Nl' z Hz).
      apply fle_key in Hy; try assumption. apply fle_key; try assumption. lia.
Qed.

Lemma sort_sorted (l : list float) :
  numeric l -> StronglySorted fle (sort (fun a b => sub a b) l).
Proof.
  induction l as [|x l IH]; intros Nl; cbn [sort].
  - constructor.
  - inversion Nl; subst. apply sort_insert_sorted; auto.
    eapply numeric_perm; [apply sort_perm | assumption].
Qed.

(** C6: on a SampleSet of numbers that is not empty, [median] sorts the
    samples ascending and returns the middle element when their count is
    odd, the mean of the two middle elements when it is even;
    [median([1,2,3,4]) = 2.5] and [median([1,2,3]) = 2]. *)
Theorem median_of_sorted (arr : list float) :
  arr <> [] -> numeric arr ->
  let sorted := sort (fun a b => sub a b) arr in
  let mid := Z.to_nat (length_ arr / 2) in
  (Permutation arr sorted /\ StronglySorted fle sorted)
  /\ ((length_ arr mod 2 = 1)%Z -> nth_error sorted mid = Some (median arr))
  /\ ((length_ arr mod 2 = 0)%Z ->
      exists a b, nth_error sorted (mid - 1) = Some a
                  /\ nth_error sorted mid = Some b
                  /\ median arr = (a + b) / 2)
  /\ median [1; 2; 3; 4] = 2.5
  /\ median [1; 2; 3] = 2.
Proof.
  intros Hne Hnum sorted mid.
  split; [split; [apply sort_perm | now apply sort_sorted]|].
  destruct (median_cases arr Hne) as [(Hodd & v & Hv & _ & Hm) | (Hev & a & b & Ha & Hb & _ & _ & Hm)].
  - split; [intros _; fold mid in Hv; now rewrite Hm|].
    split; [intros H; lia|]. split; reflexivity.
  - split; [intros H; lia|].
    split; [|split; reflexivity].
    intros _. exists a, b. fold sorted in Ha, Hb.
    replace (mid - 1)%nat with (Z.to_nat (length_ arr / 2 - 1)) by (unfold mid; lia).
    auto.
Qed.

Lemma median_of_sorted_witness :
  let arr := [4; 1; 3; 2] in
  arr <> [] /\ numeric arr
  /\ exists a b, nth_error (sort (fun a b => sub a b) arr) 1 = Some a
                 /\ nth_error (sort (fun a b => sub a b) arr) 2 = Some b
                 /\ median arr = (a + b) / 2.
Proof.
  assert (Hne : [4; 1; 3; 2] <> []) by discriminate.
  assert (Hnum : numeric [4; 1; 3; 2]) by (repeat constructor).
  split; [exact Hne|]. split; [exact Hnum|].
  apply (median_of_sorted [4; 1; 3; 2] Hne Hnum). reflexivity.
Defined.

(** ** Statistics Engine: bounds *)




Local Open Scope Q_scope.







Local Close Scope Q_scope.




(** ** Percentage difference *)

Lemma append_assoc_ (a b c : string) : (a ++ b) ++ c = a ++ b ++ c.
Proof. induction a as [|x a IH]; cbn; [reflexivity | now rewrite IH]. Qed.

Lemma length_append_ (a b : string) :
  String.length (a ++ b) = (String.length a + String.length b)%nat.
Proof. induction a as [|x a IH]; cbn; [reflexivity | now rewrite IH]. Qed.

Lemma all_digits_append (a b : string) :
  all_digits (a ++ b) = all_digits a && all_digits b.
Proof.
  induction a as [|x a IH]; cbn; [reflexivity | now rewrite IH, andb_assoc].
Qed.

Lemma all_digits_zeros k : all_digits (zeros k) = true.
Proof. induction k; cbn; auto. Qed.

Lemma length_zeros k : String.length (zeros k) = k.
Proof. induction k; cbn; auto. Qed.

Lemma all_digits_uint d : all_digits (NilEmpty.string_of_uint d) = true.
Proof. induction d; cbn; auto. Qed.

Lemma digits_spec (n : Z) :
  all_digits (digits n) = true /\ (1 <= String.length (digits n))%nat.
Proof.
  unfold digits, NilZero.string_of_uint.
  destruct (N.to_uint (Z.to_N n)) as [|d|d|d|d|d|d|d|d|d|d] eqn:E;
    rewrite <- ?E; split;
    try apply all_digits_uint; try reflexivity;
    rewrite E; cbn; lia.
Qed.

Lemma digit_is_no_sign c :
  is_digit c = true -> Ascii.eqb c "+" || Ascii.eqb c "-" || Ascii.eqb c "." = false.
Proof.
  destruct c as [[] [] [] [] [] [] [] []]; intros H; try discriminate H; reflexivity.
Qed.

Lemma point_two_of_digits (s : string) (seen : bool) :
  all_digits s = true -> (3 <= String.length s)%nat ->
  digits_point_two
    (substring 0 (String.length s - 2) s ++ "."
     ++ substring (String.length s - 2) 2 s ++ "%") seen = true.
Proof.
  revert seen. induction s as [|c r IH]; intros seen Hd Hl; [cbn in Hl; lia|].
  cbn [all_digits] in Hd. apply andb_prop in Hd. destruct Hd as [Hc Hr].
  cbn [String.length] in *.
  destruct (Nat.eq_dec (String.length r) 2) as [E | E].
  - destruct r as [|d1 [|d2 [|x r]]]; try discriminate E.
    cbn in Hr. apply andb_prop in Hr. destruct Hr as [H1 H2].
    apply andb_prop in H2. destruct H2 as [H2 _].
    cbn. rewrite Hc. cbn. rewrite H1, H2. reflexivity.
  - replace (S (String.length r) - 2)%nat with (S (String.length r - 2)) by lia.
    cbn [substring append digits_point_two]. rewrite Hc.
    apply IH; [exact Hr | lia].
Qed.

Lemma fixed_point_two (n : Z) :
  (forall seen, digits_point_two (fixed_point n 2 ++ "%") seen = true)
  /\ exists c rest, fixed_point n 2 = String c rest /\ is_digit c = true.
Proof.
  unfold fixed_point. destruct (digits_spec n) as [Hd Hl].
  set (m := digits n) in *.
  set (m' := if (String.length m <=? 2)%nat
             then zeros (2 + 1 - String.length m) ++ m else m).
  assert (Hd' : all_digits m' = true).
  { unfold m'. destruct (String.length m <=? 2)%nat; [|exact Hd].
    now rewrite all_digits_append, all_digits_zeros. }
  assert (Hl' : (3 <= String.length m')%nat).
  { unfold m'. destruct (Nat.leb_spec (String.length m) 2); [|lia].
    rewrite length_append_, length_zeros. lia. }
  split.
  - intros seen. rewrite !append_assoc_. now apply point_two_of_digits.
  - destruct m' as [|c rest]; [cbn in Hl'; lia|].
    cbn [all_digits] in Hd'. apply andb_prop in Hd'. destruct Hd' as [Hc _].
    cbn [String.length] in *.
    replace (S (String.length rest) - 2)%nat with (S (String.length rest - 2)) by lia.
    cbn [substring append]. eauto.
Qed.

Lemma scaled_round_nonneg m e f : (0 <= scaled_round m e f)%Z.
Proof.
  unfold scaled_round.
  assert (Hq : (0 <= Zpos m * 10 ^ Z.of_nat f)%Z)
    by (apply Z.mul_nonneg_nonneg; [lia | apply Z.pow_nonneg; lia]).
  destruct (Z.leb_spec 0 e) as [He | He].
  - apply Z.mul_nonneg_nonneg; [exact Hq | apply Z.pow_nonneg; lia].
  - assert (0 < 2 ^ (- e))%Z by (apply Z.pow_pos_nonneg; lia).
    apply Z.div_pos; lia.
Qed.

(** [scaled_round m e f] is a nearest integer to [m * 2^e * 10^f]. *)
Lemma scaled_round_nearest m e f :
  (e < 0)%Z ->
  let n := scaled_round m e f in
  (Z.abs (2 * (n * 2 ^ (- e) - Zpos m * 10 ^ Z.of_nat f)) <= 2 ^ (- e))%Z.
Proof.
  intros He. cbn zeta. unfold scaled_round.
  destruct (Z.leb_spec 0 e) as [H | _]; [lia|].
  set (q := (Zpos m * 10 ^ Z.of_nat f)%Z). set (d := (2 ^ (- e))%Z).
  assert (Hd : (0 < d)%Z) by (apply Z.pow_pos_nonneg; lia).
  pose proof (Z.div_mod (2 * q + d) (2 * d) ltac:(lia)) as Hdm.
  pose proof (Z.mod_pos_bound (2 * q + d) (2 * d) ltac:(lia)) as Hb.
  nia.
Qed.

Lemma toFixed_small {node : Node} (x : float) :
  (abs x <? 1e21) = true ->
  exists n, (0 <= n)%Z
    /\ toFixed x 2 = (if x <? 0 then "-" else "") ++ fixed_point n 2.
Proof.
  intros H. unfold toFixed.
  assert (Hx : (x <? 0) = SFltb (Prim2SF x) (S754_zero false))
    by (now rewrite ltb_spec).
  destruct (ltb_true_numeric _ _ H) as [Na Nb].
  assert (Hbig : (1e21 <=? abs x) = false).
  { rewrite leb_key by assumption. rewrite ltb_key in H by assumption.
    apply Z.ltb_lt in H. apply Z.leb_gt. exact H. }
  rewrite Hbig. rewrite is_nan_abs in Na. apply is_nan_false in Na.
  rewrite ltb_spec, abs_spec in H.
  destruct (Prim2SF x) as [s | s | | s m e].
  - exists 0%Z. rewrite Hx. split; [lia | reflexivity].
  - vm_compute in H. discriminate H.
  - congruence.
  - exists (scaled_round m e 2). split; [apply scaled_round_nonneg|].
    rewrite Hx. now destruct s.
Qed.

Lemma is_digit_not_plus c : is_digit c = true -> prefix "+" (String c "") = false.
Proof.
  destruct c as [[] [] [] [] [] [] [] []]; intros H; try discriminate H; reflexivity.
Qed.

Lemma prefix_plus c rest rest' :
  prefix "+" (String c rest) = prefix "+" (String c rest').
Proof.
  cbn [prefix]. destruct (ascii_dec "+" c); [|reflexivity].
  now destruct rest, rest'.
Qed.

(** C5, as the specification states it, fails where the difference is not
    a number: when neither candidate produced a sample both medians are
    [NaN], and so is the difference, printed without decimal places. *)
Lemma pctDiff_without_decimals :
  @pctDiff failing_node (median []) (median []) = "NaN%"
  /\ percent_format (@pctDiff failing_node (median []) (median [])) = false
  /\ diff (fst (runState (@benchBufferOps failing_node "msvc.exe" "clang.exe" "code") 0%Z))
     = "NaN%"
  /\ @pctDiff failing_node 0 1 = "+Infinity%".
Proof. repeat split; vm_compute; reflexivity. Qed.

(** C5 (amended): [percentDiff] is [(B - A) / A * 100] with candidate A as
    the baseline, whichever candidate wins.  Whenever that value is a
    number of magnitude below [10^21] it is formatted with two decimal
    places, with a leading [+] exactly when it is positive; a value that is
    not a number is printed as [NaN%] and an infinite one as [+Infinity%] or
    [-Infinity%].  [percentDiff(100, 110) = +10.00%] and
    [percentDiff(100, 90) = -10.00%]. *)
Theorem pctDiff_format {node : Node} (msvc clang : float) :
  let d := (clang - msvc) / msvc * 100 in
  pctDiff msvc clang = (if 0 <? d then "+" else "") ++ toFixed d 2 ++ "%"
  /\ ((abs d <? 1e21) = true ->
      (exists n, (0 <= n)%Z
         /\ pctDiff msvc clang
            = (if 0 <? d then "+" else if d <? 0 then "-" else "")
              ++ fixed_point n 2 ++ "%")
      /\ percent_format (pctDiff msvc clang) = true
      /\ prefix "+" (pctDiff msvc clang) = (0 <? d))
  /\ ((is_nan d = true -> pctDiff msvc clang = "NaN%")
      /\ (d = infinity -> pctDiff msvc clang = "+Infinity%")
      /\ (d = neg_infinity -> pctDiff msvc clang = "-Infinity%"))
  /\ (forall title times,
        diff (timing_row title times)
        = pctDiff (median (fst times)) (median (snd times)))
  /\ pctDiff 100 110 = "+10.00%"
  /\ pctDiff 100 90 = "-10.00%".
Proof.
  intros d. split; [reflexivity|]. split; [|split; [|repeat split]].
  2:{ unfold pctDiff. fold d. split; [|split]; intros H.
      - rewrite ltb_nan by auto. unfold toFixed.
        apply is_nan_true in H. now rewrite H.
      - now rewrite H.
      - now rewrite H. }
  intros H. unfold pctDiff. fold d.
  destruct (toFixed_small d H) as (n & Hn & ->).
  destruct (fixed_point_two n) as (Hfmt & c & rest & Hc & Hdigit).
  assert (Hex : forall sg : string,
             exists k, (0 <= k)%Z /\ sg ++ fixed_point n 2 ++ "%"
                                   = sg ++ fixed_point k 2 ++ "%")
    by (intros sg; exists n; split; [exact Hn | reflexivity]).
  destruct (0 <? d) eqn:Epos.
  - rewrite (ltb_asym _ _ Epos). cbn [append].
    split; [apply (Hex "+")|]. split; [apply Hfmt|].
    rewrite Hc. reflexivity.
  - destruct (d <? 0) eqn:Eneg; cbn [append].
    + split; [apply (Hex "-")|]. split; [apply Hfmt|].
      rewrite Hc. reflexivity.
    + split; [apply (Hex "")|]. split.
      * specialize (Hfmt false). rewrite Hc in *. cbn [append] in *.
        unfold percent_format.
        pose proof (digit_is_no_sign c Hdigit) as Hs.
        apply orb_false_elim in Hs. destruct Hs as [Hs _]. now rewrite Hs.
      * rewrite Hc. cbn [append].
        rewrite (prefix_plus c _ ""). now apply is_digit_not_plus.
Qed.

Lemma pctDiff_format_witness :
  (abs ((110 - 100) / 100 * 100) <? 1e21) = true
  /\ percent_format (@pctDiff failing_node 100 110) = true
  /\ prefix "+" (@pctDiff failing_node 100 110) = true.
Proof.
  assert (H : (abs ((110 - 100) / 100 * 100) <? 1e21) = true) by reflexivity.
  split; [exact H|].
  destruct (proj1 (proj2 (@pctDiff_format failing_node 100 110)) H) as (_ & Hf & Hp).
  split; [exact Hf | exact Hp].
Defined.

(** ** Trial Runner *)

Section Runner.
Context {node : Node}.
Variables MSVC_BIN CLANG_BIN : string.

Lemma runTimed_run (bin : string) (args : list string) (w : World) :
  runState (runTimed bin args) w =
  let (start, w1) := hrtime_bigint w in
  let (result, w2) := spawnSync bin args w1 in
  let (end_, w3) := hrtime_bigint w2 in
  ({| durationMs := Number_of_Z (end_ - start) / 1e6;
      stdout := or_empty (fst (fst result));
      stderr := or_empty (snd (fst result));
      status := snd result |}, w3).
Proof.
  unfold runTimed. cbn.
  destruct (hrtime_bigint w) as [start w1].
  destruct (spawnSync bin args w1) as [[[out err] st] w2].
  destruct (hrtime_bigint w2) as [end_ w3]. reflexivity.
Qed.

Lemma runBothTimed_run (args : list string) (w : World) :
  runState (runBothTimed MSVC_BIN CLANG_BIN args) w =
  let (r, w0) := Math_random w in
  if r <? 0.5 then
    let (msvc, w1) := runState (runTimed MSVC_BIN args) w0 in
    let (clang, w2) := runState (runTimed CLANG_BIN args) w1 in
    ({| msvc_run := msvc; clang_run := clang |}, w2)
  else
    let (clang, w1) := runState (runTimed CLANG_BIN args) w0 in
    let (msvc, w2) := runState (runTimed MSVC_BIN args) w1 in
    ({| msvc_run := msvc; clang_run := clang |}, w2).
Proof.
  unfold runBothTimed. cbn [runState bind Monad_state lift].
  destruct (Math_random w) as [r w0].
  destruct (r <? 0.5); cbn [runState bind Monad_state ret].
  - destruct (runState (runTimed MSVC_BIN args) w0) as [msvc w1].
    destruct (runState (runTimed CLANG_BIN args) w1) as [clang w2]. reflexivity.
  - destruct (runState (runTimed CLANG_BIN args) w0) as [clang w1].
    destruct (runState (runTimed MSVC_BIN args) w1) as [msvc w2]. reflexivity.
Qed.
End Runner.

Lemma runTimed_stdout {node : Node} (bin : string) (args : list string) (w : World) :
  stdout (fst (runState (runTimed bin args) w))
  = or_empty (fst (fst (fst (spawnSync bin args (snd (hrtime_bigint w)))))).
Proof.
  rewrite runTimed_run. destruct (hrtime_bigint w) as [start w1]. cbn [snd].
  destruct (spawnSync bin args w1) as [result w2].
  destruct (hrtime_bigint w2) as [end_ w3]. reflexivity.
Qed.

(** C7: in both execution orders the candidate-A field of the pair that
    [runBothTimed] returns is the result of running candidate A's binary
    and the candidate-B field the result of running candidate B's: if every
    child prints a tag of its binary, the candidate-A field holds the tag of
    candidate A's binary and the candidate-B field that of candidate B's. *)
Theorem results_are_attributed {node : Node} (MSVC_BIN CLANG_BIN : string)
    (args : list string) (w : World) :
  let both := fst (runState (runBothTimed MSVC_BIN CLANG_BIN args) w) in
  let w0 := snd (Math_random w) in
  (if fst (Math_random w) <? 0.5
   then msvc_run both = fst (runState (runTimed MSVC_BIN args) w0)
        /\ clang_run both
           = fst (runState (runTimed CLANG_BIN args)
                           (snd (runState (runTimed MSVC_BIN args) w0)))
   else clang_run both = fst (runState (runTimed CLANG_BIN args) w0)
        /\ msvc_run both
           = fst (runState (runTimed MSVC_BIN args)
                           (snd (runState (runTimed CLANG_BIN args) w0))))
  /\ (forall tag : string -> string,
        (forall bin w', fst (fst (fst (spawnSync bin args w'))) = Some (tag bin)) ->
        stdout (msvc_run both) = tag MSVC_BIN
        /\ stdout (clang_run both) = tag CLANG_BIN).
Proof.
  cbn zeta.
  assert (Hif :
    if fst (Math_random w) <? 0.5
    then msvc_run (fst (runState (runBothTimed MSVC_BIN CLANG_BIN args) w))
         = fst (runState (runTimed MSVC_BIN args) (snd (Math_random w)))
         /\ clang_run (fst (runState (runBothTimed MSVC_BIN CLANG_BIN args) w))
            = fst (runState (runTimed CLANG_BIN args)
                    (snd (runState (runTimed MSVC_BIN args) (snd (Math_random w)))))
    else clang_run (fst (runState (runBothTimed MSVC_BIN CLANG_BIN args) w))
         = fst (runState (runTimed CLANG_BIN args) (snd (Math_random w)))
         /\ msvc_run (fst (runState (runBothTimed MSVC_BIN CLANG_BIN args) w))
            = fst (runState (runTimed MSVC_BIN args)
                    (snd (runState (runTimed CLANG_BIN args) (snd (Math_random w)))))).
  { rewrite runBothTimed_run.
    destruct (Math_random w) as [r w0]. cbn [fst snd].
    destruct (r <? 0.5).
    + destruct (runState (runTimed MSVC_BIN args) w0) as [msvc w1].
      cbn [fst snd].
      destruct (runState (runTimed CLANG_BIN args) w1) as [clang w2].
      split; reflexivity.
    + destruct (runState (runTimed CLANG_BIN args) w0) as [clang w1].
      cbn [fst snd].
      destruct (runState (runTimed MSVC_BIN args) w1) as [msvc w2].
      split; reflexivity. }
  split; [exact Hif|].
  intros tag Htag.
  destruct (fst (Math_random w) <? 0.5); destruct Hif as [-> ->];
    rewrite !runTimed_stdout, !Htag; split; reflexivity.
Qed.

Lemma results_are_attributed_witness :
  (let both := fst (runState (@runBothTimed (echo_node 0.25)
                                "msvc.exe" "clang.exe" ["-e"; "0"]) 0%Z) in
   stdout (msvc_run both) = "msvc.exe" /\ stdout (clang_run both) = "clang.exe")
  /\ (let both := fst (runState (@runBothTimed (echo_node 0.75)
                                   "msvc.exe" "clang.exe" ["-e"; "0"]) 0%Z) in
      stdout (msvc_run both) = "msvc.exe" /\ stdout (clang_run both) = "clang.exe").
Proof.
  split.
  - apply (proj2 (@results_are_attributed (echo_node 0.25)
                    "msvc.exe" "clang.exe" ["-e"; "0"] 0%Z) (fun bin => bin)).
    reflexivity.
  - apply (proj2 (@results_are_attributed (echo_node 0.75)
                    "msvc.exe" "clang.exe" ["-e"; "0"] 0%Z) (fun bin => bin)).
    reflexivity.
Defined.

(** ** Sampling Controller *)

Section Sampling.
Context {node : Node}.
Variables MSVC_BIN CLANG_BIN : string.

Lemma measure_durations_step n args times w :
  runState (measure_durations MSVC_BIN CLANG_BIN (S n) args times) w =
  let (both, w') := runState (runBothTimed MSVC_BIN CLANG_BIN args) w in
  runState (measure_durations MSVC_BIN CLANG_BIN n args
              ((fst times ++ [durationMs (msvc_run both)])%list,
               (snd times ++ [durationMs (clang_run both)])%list)) w'.
Proof. reflexivity. Qed.

Lemma measure_printed_step n args times w :
  runState (measure_printed MSVC_BIN CLANG_BIN (S n) args times) w =
  let (both, w') := runState (runBothTimed MSVC_BIN CLANG_BIN args) w in
  let msvcT := parseFloat (trim (stdout (msvc_run both))) in
  let clangT := parseFloat (trim (stdout (clang_run both))) in
  runState (measure_printed MSVC_BIN CLANG_BIN n args
              ((if negb (is_nan msvcT) then (fst times ++ [msvcT])%list else fst times),
               (if negb (is_nan clangT) then (snd times ++ [clangT])%list else snd times))) w'.
Proof. reflexivity. Qed.

Lemma measure_durations_length n args times w :
  let r := fst (runState (measure_durations MSVC_BIN CLANG_BIN n args times) w) in
  List.length (fst r) = (List.length (fst times) + n)%nat
  /\ List.length (snd r) = (List.length (snd times) + n)%nat.
Proof.
  revert times w. induction n as [|n IH]; intros times w.
  - cbn. split; lia.
  - cbn zeta. rewrite measure_durations_step.
    destruct (runState (runBothTimed MSVC_BIN CLANG_BIN args) w) as [both w'].
    destruct (IH ((fst times ++ [durationMs (msvc_run both)])%list,
                  (snd times ++ [durationMs (clang_run both)])%list) w') as [H1 H2].
    cbn [fst snd] in H1, H2. rewrite H1, H2, !length_app. cbn. split; lia.
Qed.
Lemma trials_step n args (w : World) :
  trials MSVC_BIN CLANG_BIN (S n) args w
  = fst (runState (runBothTimed MSVC_BIN CLANG_BIN args) w)
    :: trials MSVC_BIN CLANG_BIN n args
         (snd (runState (runBothTimed MSVC_BIN CLANG_BIN args) w)).
Proof.
  cbn [trials].
  now destruct (runState (runBothTimed MSVC_BIN CLANG_BIN args) w).
Qed.

Lemma trials_length n args (w : World) :
  List.length (trials MSVC_BIN CLANG_BIN n args w) = n.
Proof.
  revert w. induction n as [|n IH]; intros w; [reflexivity|].
  rewrite trials_step. cbn [List.length]. now rewrite IH.
Qed.

(** The timing loop pushes, at every trial, the duration of the run of
    MSVC to the first SampleSet and that of the run of ClangCL to the
    second one. *)
Lemma measure_durations_samples n args times (w : World) :
  fst (runState (measure_durations MSVC_BIN CLANG_BIN n args times) w)
  = ((fst times ++ map (fun both => durationMs (msvc_run both))
                       (trials MSVC_BIN CLANG_BIN n args w))%list,
     (snd times ++ map (fun both => durationMs (clang_run both))
                       (trials MSVC_BIN CLANG_BIN n args w))%list).
Proof.
  revert times w. induction n as [|n IH]; intros times w.
  - cbn. rewrite !app_nil_r. now destruct times.
  - rewrite measure_durations_step, trials_step.
    destruct (runState (runBothTimed MSVC_BIN CLANG_BIN args) w) as [both w'].
    cbn [fst snd map]. rewrite IH. cbn [fst snd].
    now rewrite <- !app_assoc.
Qed.

Lemma numbers_cons (x : float) (xs : list float) :
  numbers (x :: xs) = ((if negb (is_nan x) then [x] else []) ++ numbers xs)%list.
Proof. unfold numbers. cbn [filter]. now destruct (negb (is_nan x)). Qed.

(** The printing loop pushes what a candidate's run printed when it reads
    as a number, and nothing otherwise. *)
Lemma measure_printed_samples n args times (w : World) :
  fst (runState (measure_printed MSVC_BIN CLANG_BIN n args times) w)
  = ((fst times ++ numbers (map msvc_printed
                              (trials MSVC_BIN CLANG_BIN n args w)))%list,
     (snd times ++ numbers (map clang_printed
                              (trials MSVC_BIN CLANG_BIN n args w)))%list).
Proof.
  revert times w. induction n as [|n IH]; intros times w.
  - cbn. rewrite !app_nil_r. now destruct times.
  - rewrite measure_printed_step, trials_step.
    destruct (runState (runBothTimed MSVC_BIN CLANG_BIN args) w) as [both w'].
    cbn [fst snd map]. cbn zeta. rewrite IH. cbn [fst snd].
    rewrite !numbers_cons. unfold msvc_printed, clang_printed.
    destruct (negb (is_nan (parseFloat (trim (stdout (msvc_run both))))));
      destruct (negb (is_nan (parseFloat (trim (stdout (clang_run both))))));
      cbn [app]; rewrite <- ?app_assoc; reflexivity.
Qed.

Section MemoryLoop.
Variable JSValue : Type.
Variable JSON_parse : string -> option JSValue.

Lemma measure_memory_step n args mem (w : World) :
  runState (measure_memory JSValue JSON_parse MSVC_BIN CLANG_BIN (S n) args mem) w =
  let (both, w') := runState (runBothTimed MSVC_BIN CLANG_BIN args) w in
  runState (measure_memory JSValue JSON_parse MSVC_BIN CLANG_BIN n args
              (push_parsed JSValue JSON_parse (fst mem) (trim (stdout (msvc_run both))),
               push_parsed JSValue JSON_parse (snd mem) (trim (stdout (clang_run both))))) w'.
Proof. reflexivity. Qed.

(** The memory loop pushes what [JSON.parse] returns for the text a
    candidate's run printed, and nothing when it throws. *)
Lemma measure_memory_samples n args mem (w : World) :
  fst (runState (measure_memory JSValue JSON_parse MSVC_BIN CLANG_BIN n args mem) w)
  = ((fst mem ++ parsed JSON_parse
                   (map (fun both => trim (stdout (msvc_run both)))
                        (trials MSVC_BIN CLANG_BIN n args w)))%list,
     (snd mem ++ parsed JSON_parse
                   (map (fun both => trim (stdout (clang_run both)))
                        (trials MSVC_BIN CLANG_BIN n args w)))%list).
Proof.
  revert mem w. induction n as [|n IH]; intros mem w.
  - cbn. rewrite !app_nil_r. now destruct mem.
  - rewrite measure_memory_step, trials_step.
    destruct (runState (runBothTimed MSVC_BIN CLANG_BIN args) w) as [both w'].
    cbn [fst snd map]. rewrite IH. cbn [fst snd].
    unfold parsed, push_parsed. cbn [flat_map].
    destruct (JSON_parse (trim (stdout (msvc_run both))));
      destruct (JSON_parse (trim (stdout (clang_run both))));
      cbn [app]; rewrite <- ?app_assoc; reflexivity.
Qed.
End MemoryLoop.
End Sampling.

Section StatusIsIgnored.
Context {node : Node}.
Variable st : string -> list string -> World -> option Z.
Variables MSVC_BIN CLANG_BIN : string.

Abbreviation node' := (override_status node st).

Lemma runTimed_override bin args (w : @World node) :
  same_measurement (fst (runState (@runTimed node' bin args) w))
                   (fst (runState (@runTimed node bin args) w))
  /\ snd (runState (@runTimed node' bin args) w)
     = snd (runState (@runTimed node bin args) w).
Proof.
  rewrite !runTimed_run. cbn [hrtime_bigint spawnSync override_status].
  destruct (hrtime_bigint w) as [start w1].
  destruct (spawnSync bin args w1) as [[[out err] s] w2].
  destruct (hrtime_bigint w2) as [end_ w3].
  repeat split.
Qed.

Lemma runBothTimed_override args (w : @World node) :
  let both' := fst (runState (@runBothTimed node' MSVC_BIN CLANG_BIN args) w) in
  let both := fst (runState (@runBothTimed node MSVC_BIN CLANG_BIN args) w) in
  same_measurement (msvc_run both') (msvc_run both)
  /\ same_measurement (clang_run both') (clang_run both)
  /\ snd (runState (@runBothTimed node' MSVC_BIN CLANG_BIN args) w)
     = snd (runState (@runBothTimed node MSVC_BIN CLANG_BIN args) w).
Proof.
  cbn zeta. rewrite !runBothTimed_run. cbn [Math_random override_status].
  destruct (Math_random w) as [r w0].
  destruct (r <? 0.5).
  - destruct (runTimed_override MSVC_BIN args w0) as [Hm Hw].
    destruct (runState (@runTimed node' MSVC_BIN args) w0) as [m' w1'].
    destruct (runState (@runTimed node MSVC_BIN args) w0) as [m w1].
    cbn [fst snd] in Hm, Hw. subst w1'.
    destruct (runTimed_override CLANG_BIN args w1) as [Hc Hw].
    destruct (runState (@runTimed node' CLANG_BIN args) w1) as [c' w2'].
    destruct (runState (@runTimed node CLANG_BIN args) w1) as [c w2].
    cbn [fst snd] in *. auto.
  - destruct (runTimed_override CLANG_BIN args w0) as [Hc Hw].
    destruct (runState (@runTimed node' CLANG_BIN args) w0) as [c' w1'].
    destruct (runState (@runTimed node CLANG_BIN args) w0) as [c w1].
    cbn [fst snd] in Hc, Hw. subst w1'.
    destruct (runTimed_override MSVC_BIN args w1) as [Hm Hw].
    destruct (runState (@runTimed node' MSVC_BIN args) w1) as [m' w2'].
    destruct (runState (@runTimed node MSVC_BIN args) w1) as [m w2].
    cbn [fst snd] in *. auto.
Qed.

Lemma measure_durations_override n args times (w : @World node) :
  runState (@measure_durations node' MSVC_BIN CLANG_BIN n args times) w
  = runState (@measure_durations node MSVC_BIN CLANG_BIN n args times) w.
Proof.
  revert times w. induction n as [|n IH]; intros times w; [reflexivity|].
  rewrite !measure_durations_step.
  destruct (runBothTimed_override args w) as ((Hm & _) & (Hc & _) & Hw).
  destruct (runState (@runBothTimed node' MSVC_BIN CLANG_BIN args) w) as [both' w1'].
  destruct (runState (@runBothTimed node MSVC_BIN CLANG_BIN args) w) as [both w1].
  cbn [fst snd] in Hm, Hc, Hw. subst w1'. rewrite Hm, Hc. apply IH.
Qed.

Lemma measure_printed_override n args times (w : @World node) :
  runState (@measure_printed node' MSVC_BIN CLANG_BIN n args times) w
  = runState (@measure_printed node MSVC_BIN CLANG_BIN n args times) w.
Proof.
  revert times w. induction n as [|n IH]; intros times w; [reflexivity|].
  rewrite !measure_printed_step.
  destruct (runBothTimed_override args w) as ((_ & Hm & _) & (_ & Hc & _) & Hw).
  destruct (runState (@runBothTimed node' MSVC_BIN CLANG_BIN args) w) as [both' w1'].
  destruct (runState (@runBothTimed node MSVC_BIN CLANG_BIN args) w) as [both w1].
  cbn [fst snd] in Hm, Hc, Hw. subst w1'. cbn zeta.
  cbn [parseFloat trim override_status]. rewrite Hm, Hc. apply IH.
Qed.
Lemma measure_memory_override (JSValue : Type)
    (JSON_parse : string -> option JSValue) n args mem (w : @World node) :
  runState (@measure_memory node' JSValue JSON_parse MSVC_BIN CLANG_BIN n args mem) w
  = runState (@measure_memory node JSValue JSON_parse MSVC_BIN CLANG_BIN n args mem) w.
Proof.
  revert mem w. induction n as [|n IH]; intros mem w; [reflexivity|].
  rewrite !measure_memory_step.
  destruct (runBothTimed_override args w) as ((_ & Hm & _) & (_ & Hc & _) & Hw).
  destruct (runState (@runBothTimed node' MSVC_BIN CLANG_BIN args) w) as [both' w1'].
  destruct (runState (@runBothTimed node MSVC_BIN CLANG_BIN args) w) as [both w1].
  cbn [fst snd] in Hm, Hc, Hw. subst w1'.
  cbn [trim override_status]. rewrite Hm, Hc. apply IH.
Qed.
End StatusIsIgnored.

Lemma benchStartupTime_run {node : Node} (MSVC_BIN CLANG_BIN : string) (w : World) :
  runState (benchStartupTime MSVC_BIN CLANG_BIN) w =
  let (_, w1) := runState (warmup MSVC_BIN CLANG_BIN WARMUP ["-e"; "0"]) w in
  let (times, w2) :=
    runState (measure_durations MSVC_BIN CLANG_BIN ITERATIONS ["-e"; "0"] ([], [])) w1 in
  (timing_row ("Startup Time (node -e " ++ dquote ++ "0" ++ dquote ++ ")") times, w2).
Proof.
  unfold benchStartupTime. cbn [runState bind Monad_state].
  destruct (runState (warmup MSVC_BIN CLANG_BIN WARMUP ["-e"; "0"]) w) as [u w1].
  destruct (runState (measure_durations MSVC_BIN CLANG_BIN ITERATIONS _ _) w1)
    as [times w2].
  reflexivity.
Qed.

(** The SampleSets of the startup workload hold one observation per
    measured trial, whatever the children did. *)
Lemma benchStartupTime_samples {node : Node} (MSVC_BIN CLANG_BIN : string) (w : World) :
  exists times w1 w2,
    runState (benchStartupTime MSVC_BIN CLANG_BIN) w
    = (timing_row ("Startup Time (node -e " ++ dquote ++ "0" ++ dquote ++ ")") times, w2)
    /\ times = fst (runState (measure_durations MSVC_BIN CLANG_BIN ITERATIONS
                                ["-e"; "0"] ([], [])) w1)
    /\ List.length (fst times) = ITERATIONS
    /\ List.length (snd times) = ITERATIONS.
Proof.
  rewrite benchStartupTime_run.
  destruct (runState (warmup MSVC_BIN CLANG_BIN WARMUP ["-e"; "0"]) w) as [u w1].
  pose proof (measure_durations_length MSVC_BIN CLANG_BIN ITERATIONS
                ["-e"; "0"] ([], []) w1) as Hlen.
  destruct (runState (measure_durations MSVC_BIN CLANG_BIN ITERATIONS _ _) w1)
    as [times w2] eqn:E.
  exists times, w1, w2. rewrite E. cbn [fst snd] in *. cbn in Hlen. tauto.
Qed.

(** C4, as the specification states it, fails: when each of the 30
    measured trials of the startup workload exits with status 1, or is
    killed at the timeout, each candidate's SampleSet still holds 30
    observations, the durations of the failed trials. *)
Lemma failed_trials_are_samples :
  ((forall bin args w,
      status (fst (runState (@runTimed failing_node bin args) w)) = Some 1%Z)
   /\ fst (runState (@measure_durations failing_node "msvc.exe" "clang.exe"
                       ITERATIONS ["-e"; "0"] ([], [])) 0%Z)
      = (repeat 2 30, repeat 2 30))
  /\ ((forall bin args w,
         status (fst (runState (@runTimed timeout_node bin args) w)) = None)
      /\ fst (runState (@measure_durations timeout_node "msvc.exe" "clang.exe"
                          ITERATIONS ["-e"; "0"] ([], [])) 0%Z)
         = (repeat 60000 30, repeat 60000 30))
  /\ (let r := fst (runState (@benchStartupTime failing_node "msvc.exe" "clang.exe") 0%Z) in
      msvc r = 2 /\ clang r = 2 /\ msvcFmt r = "2.00 ms" /\ winner_ r = "Tie").
Proof.
  split; [|split];
    try (split; [intros bin args w; reflexivity | vm_compute; reflexivity]).
  vm_compute. repeat split.
Qed.

(** C4 (amended): every measured trial of a timing workload contributes
    its duration to each candidate's SampleSet, whatever its exit status
    and also when it timed out: the SampleSet of a candidate is, in order,
    the durations of that candidate's own runs, one per trial, so [n]
    trials add [n] observations.  A trial of a workload that prints its
    measurement contributes exactly when its output parses to a number,
    and a trial of a memory workload exactly when [JSON.parse] accepts its
    output.  No SampleSet depends on an exit status; no trial is
    retried. *)
Theorem every_timed_trial_is_a_sample {node : Node} (MSVC_BIN CLANG_BIN : string)
    (n : nat) (args : list string) (times : list float * list float)
    (w : @World node) :
  (let r := fst (runState (measure_durations MSVC_BIN CLANG_BIN n args times) w) in
   List.length (fst r) = (List.length (fst times) + n)%nat
   /\ List.length (snd r) = (List.length (snd times) + n)%nat)
  /\ (forall st,
        runState (@measure_durations (override_status node st)
                    MSVC_BIN CLANG_BIN n args times) w
        = runState (measure_durations MSVC_BIN CLANG_BIN n args times) w)
  /\ (forall st,
        runState (@measure_printed (override_status node st)
                    MSVC_BIN CLANG_BIN n args times) w
        = runState (measure_printed MSVC_BIN CLANG_BIN n args times) w)
  /\ (let both := fst (runState (runBothTimed MSVC_BIN CLANG_BIN args) w) in
      let msvcT := parseFloat (trim (stdout (msvc_run both))) in
      let clangT := parseFloat (trim (stdout (clang_run both))) in
      let r := fst (runState (measure_printed MSVC_BIN CLANG_BIN 1 args times) w) in
      fst r = (if is_nan msvcT then fst times else fst times ++ [msvcT])%list
      /\ snd r = (if is_nan clangT then snd times else snd times ++ [clangT])%list)
  /\ (let ts := trials MSVC_BIN CLANG_BIN n args w in
      List.length ts = n
      /\ fst (runState (measure_durations MSVC_BIN CLANG_BIN n args times) w)
         = ((fst times ++ map (fun both => durationMs (msvc_run both)) ts)%list,
            (snd times ++ map (fun both => durationMs (clang_run both)) ts)%list)
      /\ fst (runState (measure_printed MSVC_BIN CLANG_BIN n args times) w)
         = ((fst times ++ numbers (map msvc_printed ts))%list,
            (snd times ++ numbers (map clang_printed ts))%list)
      /\ (forall (JSValue : Type) (JSON_parse : string -> option JSValue)
                 (mem : list JSValue * list JSValue),
            fst (runState (measure_memory JSValue JSON_parse MSVC_BIN CLANG_BIN
                             n args mem) w)
            = ((fst mem ++ parsed JSON_parse
                             (map (fun both => trim (stdout (msvc_run both))) ts))%list,
               (snd mem ++ parsed JSON_parse
                             (map (fun both => trim (stdout (clang_run both))) ts))%list)))
  /\ (forall st (JSValue : Type) (JSON_parse : string -> option JSValue)
             (mem : list JSValue * list JSValue),
        runState (@measure_memory (override_status node st) JSValue JSON_parse
                    MSVC_BIN CLANG_BIN n args mem) w
        = runState (measure_memory JSValue JSON_parse MSVC_BIN CLANG_BIN
                      n args mem) w).
Proof.
  split; [apply measure_durations_length|].
  split; [intros st; apply measure_durations_override|].
  split; [intros st; apply measure_printed_override|].
  split.
  { cbn zeta. rewrite measure_printed_step.
    destruct (runState (runBothTimed MSVC_BIN CLANG_BIN args) w) as [both w'].
    cbn [fst snd measure_printed runState ret Monad_state].
    split.
    - now destruct (is_nan (parseFloat (trim (stdout (msvc_run both))))).
    - now destruct (is_nan (parseFloat (trim (stdout (clang_run both))))). }
  split.
  { cbn zeta.
    split; [apply trials_length|].
    split; [apply measure_durations_samples|].
    split; [apply measure_printed_samples|].
    intros JSValue JSON_parse mem. apply measure_memory_samples. }
  intros st JSValue JSON_parse mem. apply measure_memory_override.
Qed.

(** ** Start and end of the script *)

(** C8, as the specification states it, fails: two paths that exist pass
    the checks although neither file may be executed. *)
Lemma unexecutable_candidates_pass :
  @startup failing_node ["node"; "benchmark_compare.js"; "msvc.exe"; "clang.exe"] 0%Z
  = Ready "msvc.exe" "clang.exe"
  /\ @executable failing_node "msvc.exe" 0%Z = false
  /\ @executable failing_node "clang.exe" 0%Z = false.
Proof. repeat split. Qed.

Lemma startup_cases {node : Node} (argv : list string) (w : World) :
  let args := skipn 2 argv in
  let a := path_resolve (nth 0 args "") in
  let b := path_resolve (nth 1 args "") in
  (length_ args <> 2%Z
   /\ startup argv w
      = Exit 1 "Usage: node benchmark_compare.js <path-to-msvc-binary> <path-to-clang-binary>")
  \/ (length_ args = 2%Z /\ existsSync a w = false
      /\ startup argv w = Exit 1 ("MSVC binary not found: " ++ a))
  \/ (length_ args = 2%Z /\ existsSync a w = true /\ existsSync b w = false
      /\ startup argv w = Exit 1 ("ClangCL binary not found: " ++ b))
  \/ (length_ args = 2%Z /\ existsSync a w = true /\ existsSync b w = true
      /\ startup argv w = Ready a b).
Proof.
  cbn zeta. unfold startup.
  destruct (Z.eqb_spec (length_ (skipn 2 argv)) 2) as [E | E]; cbn [negb]; [|auto].
  right.
  destruct (existsSync (path_resolve (nth 0 (skipn 2 argv) "")) w); cbn [negb]; [|auto].
  right.
  destruct (existsSync (path_resolve (nth 1 (skipn 2 argv) "")) w); cbn [negb]; auto.
Qed.

(** C8 (amended): before [main] runs, the script checks that it was given
    exactly two paths and that both exist; whether they may be executed is
    not checked.  A wrong number of arguments or a path that does not exist
    prints a message and ends the process with status 1, before any child is
    spawned; in every other case the process ends with status 0, also when
    [main] throws, the error being printed. *)
Theorem startup_validation {node : Node}
    (main : string -> string -> state World (string + unit))
    (argv : list string) (w : World) :
  let args := skipn 2 argv in
  let a := path_resolve (nth 0 args "") in
  let b := path_resolve (nth 1 args "") in
  (startup argv w = Ready a b
   <-> length_ args = 2%Z /\ existsSync a w = true /\ existsSync b w = true)
  /\ (startup argv w <> Ready a b ->
      exists message,
        message <> ""
        /\ startup argv w = Exit 1 message
        /\ script main argv w = ({| exit_status := 1; errors := [message] |}, w))
  /\ (startup argv w = Ready a b ->
      exit_status (fst (script main argv w)) = 0%Z
      /\ script main argv w
         = (let (r, w') := runState (main a b) w in
            ({| exit_status := 0;
                errors := match r with inl e => [e] | inr _ => [] end |}, w')))
  /\ (exit_status (fst (script main argv w)) <> 0%Z <-> startup argv w <> Ready a b).
Proof.
  cbn zeta.
  destruct (startup_cases argv w)
    as [(Hn & E) | [(Hn & Ha & E) | [(Hn & Ha & Hb & E) | (Hn & Ha & Hb & E)]]];
    cbn zeta in E; unfold script; rewrite E.
  1-3: split; [split; [discriminate | intros (? & ? & ?); congruence]|];
       split; [intros _; eexists; repeat split; discriminate|];
       split; [discriminate|];
       cbn; split; [discriminate | lia].
  split; [split; auto|].
  split; [congruence|].
  destruct (runState (main _ _) w) as [r w'].
  split; [intros _; split; reflexivity|].
  cbn. split; [lia | congruence].
Qed.

Lemma startup_validation_witness :
  let argv := ["node"; "benchmark_compare.js"; "msvc.exe"; "missing.exe"] in
  @startup failing_node argv 0%Z <> Ready "msvc.exe" "missing.exe"
  /\ exists message,
       message <> ""
       /\ @startup failing_node argv 0%Z = Exit 1 message
       /\ @script failing_node (fun _ _ => ret (inr tt)) argv 0%Z
          = ({| exit_status := 1; errors := [message] |}, 0%Z).
Proof.
  assert (H : @startup failing_node
                ["node"; "benchmark_compare.js"; "msvc.exe"; "missing.exe"] 0%Z
              <> Ready "msvc.exe" "missing.exe") by discriminate.
  split; [exact H|].
  exact (proj1 (proj2 (@startup_validation failing_node (fun _ _ => ret (inr tt))
           ["node"; "benchmark_compare.js"; "msvc.exe"; "missing.exe"] 0%Z)) H).
Defined.

(** * Further properties of the script *)

(** ** Signs and magnitudes *)

Local Open Scope Z_scope.

Lemma binary_round_aux_sign s m e l :
  ~ signed_as (negb s) (binary_round_aux prec emax s m e l).
Proof.
  unfold binary_round_aux.
  destruct (shr_fexp prec emax m e l) as [mrs1 e1].
  destruct (shr_fexp prec emax _ e1 loc_Exact) as [mrs2 e2].
  destruct (shr_m mrs2); [|destruct (e2 <=? emax - prec)|];
    destruct s; cbn; intuition discriminate.
Qed.

Lemma binary_round_sign s m e :
  ~ signed_as (negb s) (binary_round prec emax s m e).
Proof.
  unfold binary_round. destruct (shl_align m e _) as [mz ez].
  apply binary_round_aux_sign.
Qed.

Lemma binary_round_aux_abs s s' m e l :
  SFabs (binary_round_aux prec emax s m e l)
  = SFabs (binary_round_aux prec emax s' m e l).
Proof.
  unfold binary_round_aux.
  destruct (shr_fexp prec emax m e l) as [mrs1 e1].
  destruct (shr_fexp prec emax _ e1 loc_Exact) as [mrs2 e2].
  destruct (shr_m mrs2); [|destruct (e2 <=? emax - prec)|]; reflexivity.
Qed.

Lemma binary_round_abs s s' m e :
  SFabs (binary_round prec emax s m e) = SFabs (binary_round prec emax s' m e).
Proof.
  unfold binary_round. destruct (shl_align m e _) as [mz ez].
  apply binary_round_aux_abs.
Qed.

Lemma SFabs_sub_comm x y : SFabs (SF64sub x y) = SFabs (SF64sub y x).
Proof.
  destruct x as [sx | sx | | sx mx ex], y as [sy | sy | | sy my ey];
    try reflexivity; try (destruct sx, sy; reflexivity).
  unfold SF64sub, SFsub. rewrite (Z.min_comm ey ex).
  set (ez := Z.min ex ey).
  set (X := cond_Zopp sx _). set (Y := cond_Zopp sy _).
  replace (Y - X) with (- (X - Y)) by lia.
  destruct (X - Y) as [|p|p]; cbn [Z.opp binary_normalize];
    [reflexivity | apply binary_round_abs | apply binary_round_abs].
Qed.

Local Open Scope float_scope.

(** [|a - b|] and [|b - a|] are the same number. *)
Lemma abs_sub_comm (a b : float) : abs (a - b) = abs (b - a).
Proof.
  apply Prim2SF_inj. rewrite !abs_spec, !sub_spec. apply SFabs_sub_comm.
Qed.

Lemma is_nan_sub (a b : float) :
  is_nan a = true \/ is_nan b = true -> is_nan (a - b) = true.
Proof.
  intros H. apply is_nan_true. rewrite sub_spec.
  destruct H as [H | H]; apply is_nan_true in H; rewrite H.
  - reflexivity.
  - now destruct (Prim2SF a).
Qed.

Lemma not_negative_spec (x : float) :
  not_negative x <-> ~ signed_as true (Prim2SF x).
Proof.
  unfold not_negative. rewrite ltb_spec.
  change (Prim2SF 0) with (S754_zero false).
  destruct (Prim2SF x) as [s | s | | s m e]; cbn.
  - intuition.
  - destruct s; cbn; intuition discriminate.
  - intuition.
  - destruct s; cbn; intuition discriminate.
Qed.

Lemma ltb_same_key (d x y : float) :
  is_nan x = false -> is_nan y = false -> key x = key y ->
  (d <? x) = (d <? y).
Proof.
  intros Nx Ny K. destruct (is_nan d) eqn:Nd.
  - now rewrite !ltb_nan by auto.
  - rewrite !ltb_key by assumption. now rewrite K.
Qed.

Lemma Math_max_nan (a b : float) :
  is_nan (Math_max a b) = is_nan a || is_nan b.
Proof.
  unfold Math_max. destruct (is_nan a) eqn:Na; [reflexivity|].
  destruct (is_nan b) eqn:Nb; [reflexivity|]. cbn [orb].
  destruct (a <? b); [assumption|]. destruct (b <? a); [assumption|].
  now destruct (get_sign a).
Qed.

Lemma Math_max_key (a b : float) :
  is_nan a = false -> is_nan b = false ->
  key (Math_max a b) = Z.max (key a) (key b).
Proof.
  intros Na Nb. unfold Math_max. rewrite Na, Nb. cbn [orb].
  rewrite !ltb_key by assumption.
  destruct (Z.ltb_spec (key a) (key b)); [lia|].
  destruct (Z.ltb_spec (key b) (key a)); [lia|].
  destruct (get_sign a); lia.
Qed.

Lemma ltb_Math_max_comm (d a b : float) :
  (d <? Math_max a b) = (d <? Math_max b a).
Proof.
  destruct (is_nan a || is_nan b) eqn:N.
  - rewrite !ltb_nan; auto; right; rewrite Math_max_nan; [|assumption].
    now rewrite orb_comm.
  - apply orb_false_elim in N. destruct N as [Na Nb].
    apply ltb_same_key.
    + now rewrite Math_max_nan, Na, Nb.
    + now rewrite Math_max_nan, Na, Nb.
    + rewrite !Math_max_key by assumption. lia.
Qed.

Lemma swap_involutive_on_labels :
  swap "MSVC" = "ClangCL" /\ swap "ClangCL" = "MSVC"
  /\ swap "Tie" = "Tie" /\ swap "~Tie" = "~Tie".
Proof. repeat split. Qed.

(** ** The adjudicator (lines 55-61) *)

(** X1: the adjudicator does not favour a seat.  Exchanging the two
    candidates, values and noise figures together, exchanges the labels
    [MSVC] and [ClangCL] and leaves [Tie] and [~Tie] as they are, for all
    numbers, [NaN] and the infinities included. *)
Theorem winner_exchanged (msvcVal clangVal : float) (lowerIsBetter : bool)
                         (msvcStd clangStd : float) :
  winner clangVal msvcVal lowerIsBetter clangStd msvcStd
  = swap (winner msvcVal clangVal lowerIsBetter msvcStd clangStd).
Proof.
  unfold winner.
  rewrite (orb_comm (0 <? clangStd)), (abs_sub_comm clangVal msvcVal),
          (ltb_Math_max_comm _ clangStd msvcStd).
  destruct (((0 <? msvcStd) || (0 <? clangStd))
            && (abs (msvcVal - clangVal) <? Math_max msvcStd clangStd));
    [reflexivity|].
  destruct lowerIsBetter.
  - destruct (msvcVal <? clangVal) eqn:L.
    + rewrite (ltb_asym _ _ L). reflexivity.
    + destruct (clangVal <? msvcVal); reflexivity.
  - destruct (clangVal <? msvcVal) eqn:L.
    + rewrite (ltb_asym _ _ L). reflexivity.
    + destruct (msvcVal <? clangVal); reflexivity.
Qed.

(** X2: the direction flag only chooses the side.  With the same values
    and noise figures, [lowerIsBetter = false] gives the label that
    [lowerIsBetter = true] gives to the other candidate; [Tie] and [~Tie]
    do not depend on the flag. *)
Theorem winner_direction (msvcVal clangVal : float) (lowerIsBetter : bool)
                         (msvcStd clangStd : float) :
  winner msvcVal clangVal (negb lowerIsBetter) msvcStd clangStd
  = swap (winner msvcVal clangVal lowerIsBetter msvcStd clangStd).
Proof.
  unfold winner.
  destruct (((0 <? msvcStd) || (0 <? clangStd))
            && (abs (msvcVal - clangVal) <? Math_max msvcStd clangStd));
    [reflexivity|].
  destruct lowerIsBetter; cbn [negb].
  - destruct (msvcVal <? clangVal) eqn:L.
    + rewrite (ltb_asym _ _ L). reflexivity.
    + destruct (clangVal <? msvcVal); reflexivity.
  - destruct (clangVal <? msvcVal) eqn:L.
    + rewrite (ltb_asym _ _ L). reflexivity.
    + destruct (msvcVal <? clangVal); reflexivity.
Qed.

(** A comparison with [NaN] on a side is a plain tie. *)
Lemma NaN_is_a_tie (a b : float) (l : bool) (sa sb : float) :
  is_nan a = true \/ is_nan b = true -> winner a b l sa sb = "Tie".
Proof.
  intros H. unfold winner.
  rewrite (ltb_nan (abs _)) by (left; rewrite is_nan_abs; now apply is_nan_sub).
  rewrite andb_false_r.
  rewrite (ltb_nan a b) by assumption.
  rewrite (ltb_nan b a) by tauto.
  now destruct l.
Qed.

(** X3: a value that is [NaN] is never a loss or a win, and never a
    [~Tie]: the label is [Tie], whatever the other value, the direction
    and the noise figures. *)
Theorem winner_of_NaN (msvcVal clangVal : float) (lowerIsBetter : bool)
                      (msvcStd clangStd : float) :
  is_nan msvcVal = true \/ is_nan clangVal = true ->
  winner msvcVal clangVal lowerIsBetter msvcStd clangStd = "Tie".
Proof.
  intros H. unfold winner.
  assert (D : is_nan (abs (msvcVal - clangVal)) = true)
    by (rewrite is_nan_abs; now apply is_nan_sub).
  rewrite (ltb_nan (abs _)) by (now left).
  rewrite andb_false_r.
  destruct H as [H | H].
  - rewrite (ltb_nan msvcVal clangVal), (ltb_nan clangVal msvcVal) by auto.
    now destruct lowerIsBetter.
  - rewrite (ltb_nan msvcVal clangVal), (ltb_nan clangVal msvcVal) by auto.
    now destruct lowerIsBetter.
Qed.

Lemma winner_of_NaN_witness : winner nan 3 true 1 1 = "Tie".
Proof. apply winner_of_NaN. left. reflexivity. Defined.

Lemma winner_tilde (a b : float) (l : bool) (sa sb : float) :
  winner a b l sa sb = "~Tie"
  <-> ((0 <? sa) || (0 <? sb)) && (abs (a - b) <? Math_max sa sb) = true.
Proof.
  unfold winner.
  destruct (((0 <? sa) || (0 <? sb)) && (abs (a - b) <? Math_max sa sb)).
  - tauto.
  - split; [|discriminate].
    destruct l, (a <? b), (b <? a); discriminate.
Qed.

Lemma leb_true_numeric x y :
  (x <=? y) = true -> is_nan x = false /\ is_nan y = false.
Proof.
  intros H. destruct (is_nan x) eqn:Ex; [rewrite leb_nan in H by auto; discriminate|].
  destruct (is_nan y) eqn:Ey; [rewrite leb_nan in H by auto; discriminate|].
  split; reflexivity.
Qed.

(** X4: more noise never turns a [~Tie] into a win.  If a comparison is
    [~Tie] with noise figures [msvcStd] and [clangStd], it is [~Tie] with
    any figures at least as large. *)
Theorem noise_gate_monotone (msvcVal clangVal : float) (lowerIsBetter : bool)
                            (msvcStd clangStd msvcStd' clangStd' : float) :
  winner msvcVal clangVal lowerIsBetter msvcStd clangStd = "~Tie" ->
  (msvcStd <=? msvcStd') = true -> (clangStd <=? clangStd') = true ->
  winner msvcVal clangVal lowerIsBetter msvcStd' clangStd' = "~Tie".
Proof.
  intros H Ha Hb. apply winner_tilde. apply winner_tilde in H.
  apply andb_prop in H. destruct H as [G D].
  destruct (leb_true_numeric _ _ Ha) as [Na Na'].
  destruct (leb_true_numeric _ _ Hb) as [Nb Nb'].
  destruct (ltb_true_numeric _ _ D) as [Nd _].
  rewrite leb_key in Ha, Hb by assumption.
  apply Z.leb_le in Ha, Hb.
  rewrite ltb_key in D
    by (try assumption; now rewrite Math_max_nan, Na, Nb).
  rewrite Math_max_key in D by assumption. apply Z.ltb_lt in D.
  rewrite !(ltb_key 0) in G by (try assumption; apply is_nan_zero).
  rewrite key_zero in G.
  apply andb_true_intro. split.
  - rewrite !(ltb_key 0) by (try assumption; apply is_nan_zero).
    rewrite key_zero.
    apply orb_prop in G. apply orb_true_intro.
    destruct G as [G | G]; apply Z.ltb_lt in G; [left | right];
      apply Z.ltb_lt; lia.
  - rewrite ltb_key by (try assumption; now rewrite Math_max_nan, Na', Nb').
    rewrite Math_max_key by assumption. apply Z.ltb_lt. lia.
Qed.

Lemma noise_gate_monotone_witness :
  winner 100 101 true 2 1 = "~Tie" /\ winner 100 101 true 3 1 = "~Tie".
Proof.
  split; [reflexivity|].
  apply (noise_gate_monotone 100 101 true 2 1 3 1); reflexivity.
Defined.

Lemma winner_gate_closed (a b : float) (l : bool) (sa sb : float) :
  (0 <? sa) = false -> (0 <? sb) = false ->
  winner a b l sa sb = winner a b l 0 0.
Proof. intros Ha Hb. unfold winner. now rewrite Ha, Hb. Qed.

(** ** The noise figure (lines 34-37) *)

(** X5: the noise figure is never below zero.  For every SampleSet,
    [stddev] returns a number at or above zero, or [NaN]. *)
Theorem stddev_not_negative (arr : list float) : not_negative (stddev arr).
Proof.
  unfold stddev.
  set (x := fold_left _ arr _ / _).
  apply not_negative_spec. rewrite sqrt_spec. unfold SF64sqrt, SFsqrt.
  destruct (Prim2SF x) as [s | s | | s m e]; cbn; try tauto.
  - destruct s; cbn; intuition discriminate.
  - destruct s; [tauto|].
    destruct (SFsqrt_core_binary prec emax (Zpos m) e) as [[mz ez] lz].
    apply (binary_round_aux_sign false).
Qed.

Lemma stddev_single (x : float) : stddev [x] = nan.
Proof.
  unfold stddev, mean. cbn [fold_left length_ List.length].
  apply single_sample_deviation.
Qed.

Lemma stddev_few (arr : list float) :
  (List.length arr <= 1)%nat -> (0 <? stddev arr) = false.
Proof.
  destruct arr as [|x [|y arr]]; cbn [List.length]; intros H; try lia.
  - reflexivity.
  - rewrite stddev_single. reflexivity.
Qed.

(** X6: with fewer than two samples there is no noise gate.  The noise
    figure of a SampleSet of one sample is [NaN] and that of an empty one
    is [-0]; a row whose two SampleSets hold at most one sample each is
    decided on the two medians alone, and is never [~Tie]. *)
Theorem few_samples_no_gate {node : Node} (title : string)
                            (times : list float * list float) :
  (List.length (fst times) <= 1)%nat -> (List.length (snd times) <= 1)%nat ->
  winner_ (timing_row title times)
  = winner (median (fst times)) (median (snd times)) true 0 0
  /\ winner_ (timing_row title times) <> "~Tie".
Proof.
  intros Ha Hb.
  assert (E : winner_ (timing_row title times)
              = winner (median (fst times)) (median (snd times)) true 0 0).
  { unfold timing_row. cbn [winner_].
    apply winner_gate_closed; now apply stddev_few. }
  split; [exact E|]. rewrite E. intros T. apply winner_tilde in T.
  discriminate T.
Qed.

Lemma few_samples_no_gate_witness :
  winner_ (@timing_row (echo_node 0.25) "t" ([12.5], [12.75])) = "MSVC".
Proof.
  destruct (@few_samples_no_gate (echo_node 0.25) "t" ([12.5], [12.75]))
    as [E _].
  - cbn. lia.
  - cbn. lia.
  - rewrite E. reflexivity.
Defined.

(** X7: a workload without samples is a plain tie.  When one of the two
    SampleSets of a row is empty, its median is [NaN], the cell reads
    [NaN ms], and the row's label is [Tie]: the summary counts it as a tie
    and adds nothing to an advantage. *)
Theorem row_without_samples {node : Node} (title : string)
                            (times : list float * list float) :
  fst times = [] \/ snd times = [] ->
  winner_ (timing_row title times) = "Tie"
  /\ verdict (winner_ (timing_row title times)) = Tie
  /\ (fst times = [] -> msvcFmt (timing_row title times) = "NaN ms")
  /\ (snd times = [] -> clangFmt (timing_row title times) = "NaN ms").
Proof.
  destruct times as [ms cs]. cbn [fst snd]. intros H.
  assert (E : winner_ (timing_row title (ms, cs)) = "Tie").
  { unfold timing_row. cbn [winner_ fst snd]. apply NaN_is_a_tie.
    destruct H as [-> | ->]; [left | right]; reflexivity. }
  split; [exact E|]. split; [now rewrite E|].
  split; intros ->; reflexivity.
Qed.

Lemma row_without_samples_witness :
  winner_ (@timing_row failing_node "t" ([], [12.5])) = "Tie"
  /\ msvcFmt (@timing_row failing_node "t" ([], [12.5])) = "NaN ms".
Proof.
  destruct (@row_without_samples failing_node "t" ([], [12.5]))
    as (E & _ & F & _).
  - left. reflexivity.
  - split; [exact E | apply F; reflexivity].
Defined.

(** ** The median (lines 24-28) *)

Local Open Scope Z_scope.

Lemma SFkey_injective x y :
  valid_binary x = true -> valid_binary y = true ->
  x <> S754_nan -> y <> S754_nan ->
  SFkey x = SFkey y -> SFkey x <> 0 -> x = y.
Proof.
  intros Vx Vy Nx Ny K Z0.
  destruct x as [sx | sx | | sx mx ex]; try congruence;
  destruct y as [sy | sy | | sy my ey]; try congruence;
    try (apply finite_bounds in Vx); try (apply finite_bounds in Vy);
    cbn [SFkey] in *;
    unfold SpecFloat.emin, emax, prec in *;
    change (2 ^ 53) with 9007199254740992 in *;
    change (2 ^ 65) with 36893488147419103232 in *;
    try (destruct sx; cbn [cond_Zopp] in *; lia);
    try (destruct sy; cbn [cond_Zopp] in *; lia);
    try (destruct sx, sy; cbn [cond_Zopp] in *; try lia; reflexivity).
  destruct sx, sy; cbn [cond_Zopp] in *; try lia;
    (assert (ex = ey) by lia; subst ey;
     assert (Zpos mx = Zpos my) by lia; congruence).
Qed.

Local Open Scope float_scope.

Lemma key_injective (x y : float) :
  is_nan x = false -> is_nan y = false ->
  key x = key y -> key x <> 0%Z -> x = y.
Proof.
  intros Nx Ny K Z0. apply Prim2SF_inj.
  apply SFkey_injective; try apply Prim2SF_valid; try assumption;
    now apply is_nan_false.
Qed.

Lemma positive_sample (x : float) :
  (0 <? x) = true -> is_nan x = false /\ (0 < key x)%Z.
Proof.
  intros H. destruct (ltb_true_numeric _ _ H) as [_ N]. split; [exact N|].
  rewrite ltb_key in H by (try assumption; apply is_nan_zero).
  rewrite key_zero in H. now apply Z.ltb_lt.
Qed.

Lemma positive_samples_numeric (l : list float) :
  positive_samples l -> numeric l.
Proof.
  unfold positive_samples, numeric. apply Forall_impl.
  intros x H. now destruct (positive_sample x H).
Qed.

Lemma positive_samples_perm (l l' : list float) :
  Permutation l l' -> positive_samples l -> positive_samples l'.
Proof. intros P. unfold positive_samples. now apply Permutation_Forall. Qed.

(** Two sorted arrangements of the same positive samples are equal. *)
Lemma sorted_arrangement_unique (l l' : list float) :
  positive_samples l -> StronglySorted fle l -> StronglySorted fle l' ->
  Permutation l l' -> l = l'.
Proof.
  revert l'. induction l as [|x l IH]; intros l' Pos S S' P.
  - now apply Permutation_nil in P.
  - destruct l' as [|y l'].
    + apply Permutation_sym, Permutation_nil in P. discriminate.
    + assert (Pos' : positive_samples (y :: l'))
        by (eapply positive_samples_perm; eassumption).
      inversion Pos as [|? ? Px Pl]; subst.
      inversion Pos' as [|? ? Py Pl']; subst.
      inversion S as [|? ? Sl Hx]; subst.
      inversion S' as [|? ? Sl' Hy]; subst.
      destruct (positive_sample x Px) as [Nx Kx].
      destruct (positive_sample y Py) as [Ny Ky].
      assert (E : x = y).
      { assert (Ix : In x (y :: l'))
          by (eapply Permutation_in; [exact P | now left]).
        assert (Iy : In y (x :: l))
          by (eapply Permutation_in; [apply Permutation_sym; exact P | now left]).
        destruct Ix as [Ix | Ix]; [now symmetry|].
        destruct Iy as [Iy | Iy]; [assumption|].
        rewrite Forall_forall in Hx, Hy.
        pose proof (Hx y Iy) as Lxy. pose proof (Hy x Ix) as Lyx.
        apply fle_key in Lxy; [|assumption..].
        apply fle_key in Lyx; [|assumption..].
        apply key_injective; try assumption; lia. }
      subst y. f_equal. apply IH; try assumption.
      eapply Permutation_cons_inv. exact P.
Qed.

Lemma sort_order_independent (arr arr' : list float) :
  positive_samples arr -> Permutation arr arr' ->
  sort (fun a b => sub a b) arr = sort (fun a b => sub a b) arr'.
Proof.
  intros Pos P. apply sorted_arrangement_unique.
  - eapply positive_samples_perm; [apply sort_perm | exact Pos].
  - apply sort_sorted. now apply positive_samples_numeric.
  - apply sort_sorted. apply positive_samples_numeric.
    eapply positive_samples_perm; eassumption.
  - rewrite <- (sort_perm _ arr), <- (sort_perm _ arr'). exact P.
Qed.

(** X8: the median does not depend on the order of the trials.  For
    samples above zero, as durations are, [median] returns the same number
    on every rearrangement of the SampleSet. *)
Theorem median_order_independent (arr arr' : list float) :
  positive_samples arr -> Permutation arr arr' -> median arr = median arr'.
Proof.
  intros Pos P. unfold median.
  now rewrite (sort_order_independent arr arr' Pos P).
Qed.

Lemma median_order_independent_witness :
  median [3; 1; 2] = median [2; 3; 1].
Proof.
  apply median_order_independent.
  - repeat constructor.
  - apply (Permutation_cons_app [2] [1] 3). apply perm_swap.
Defined.

(** ** The measuring loops (lines 110-207 and 278-590) *)

Section Loops.
Context {node : Node}.
Variables MSVC_BIN CLANG_BIN : string.

Lemma timing_workload_run title args (w : World) :
  runState (timing_workload MSVC_BIN CLANG_BIN title args) w =
  let (_, w1) := runState (warmup MSVC_BIN CLANG_BIN WARMUP args) w in
  let (times, w2) :=
    runState (measure_durations MSVC_BIN CLANG_BIN ITERATIONS args ([], [])) w1 in
  (timing_row title times, w2).
Proof.
  unfold timing_workload. cbn [runState bind Monad_state].
  destruct (runState (warmup MSVC_BIN CLANG_BIN WARMUP args) w) as [u w1].
  destruct (runState (measure_durations MSVC_BIN CLANG_BIN ITERATIONS _ _) w1)
    as [times w2].
  reflexivity.
Qed.

Lemma printing_workload_run title args (w : World) :
  runState (printing_workload MSVC_BIN CLANG_BIN title args) w =
  let (_, w1) := runState (warmup MSVC_BIN CLANG_BIN WARMUP args) w in
  let (times, w2) :=
    runState (measure_printed MSVC_BIN CLANG_BIN ITERATIONS args ([], [])) w1 in
  (timing_row title times, w2).
Proof.
  unfold printing_workload. cbn [runState bind Monad_state].
  destruct (runState (warmup MSVC_BIN CLANG_BIN WARMUP args) w) as [u w1].
  destruct (runState (measure_printed MSVC_BIN CLANG_BIN ITERATIONS _ _) w1)
    as [times w2].
  reflexivity.
Qed.

Lemma warmup_step n args (w : World) :
  runState (warmup MSVC_BIN CLANG_BIN (S n) args) w =
  let (_, w') := runState (runBothTimed MSVC_BIN CLANG_BIN args) w in
  runState (warmup MSVC_BIN CLANG_BIN n args) w'.
Proof. reflexivity. Qed.



End Loops.

(** The named workloads are the two loops at their own title and script. *)
Lemma named_workloads {node : Node} (MSVC_BIN CLANG_BIN code : string) :
  benchStartupTime MSVC_BIN CLANG_BIN
  = timing_workload MSVC_BIN CLANG_BIN
      ("Startup Time (node -e " ++ dquote ++ "0" ++ dquote ++ ")") ["-e"; "0"]
  /\ benchRequireFS MSVC_BIN CLANG_BIN
     = timing_workload MSVC_BIN CLANG_BIN
         ("require(" ++ dquote ++ "fs" ++ dquote ++ ") + exit")
         ["-e"; "const fs = require('fs'); process.exit(0);"]
  /\ benchRequireHeavy MSVC_BIN CLANG_BIN code
     = timing_workload MSVC_BIN CLANG_BIN "Require 10 core modules" ["-e"; code]
  /\ benchBufferOps MSVC_BIN CLANG_BIN code
     = printing_workload MSVC_BIN CLANG_BIN
         "Buffer ops (50k alloc+fill+hex)" ["-e"; code]
  /\ benchJSON MSVC_BIN CLANG_BIN code
     = printing_workload MSVC_BIN CLANG_BIN
         "JSON parse+stringify (20k iters)" ["-e"; code]
  /\ benchURLParsing MSVC_BIN CLANG_BIN code
     = printing_workload MSVC_BIN CLANG_BIN
         "URL parsing (50k, Ada C++)" ["-e"; code]
  /\ benchZlib MSVC_BIN CLANG_BIN code
     = printing_workload MSVC_BIN CLANG_BIN
         "Zlib deflate+inflate 64KB (500x)" ["-e"; code]
  /\ benchTextCodec MSVC_BIN CLANG_BIN code
     = printing_workload MSVC_BIN CLANG_BIN
         "TextEncoder/Decoder (10k iters)" ["-e"; code]
  /\ benchStreamPipe MSVC_BIN CLANG_BIN code
     = printing_workload MSVC_BIN CLANG_BIN
         "Stream pipe 3-chain (200x100 16KB)" ["-e"; code].
Proof. repeat split. Qed.


(** ** The children that are launched *)

Lemma paired_app (M C : string) (l1 l2 : list string) :
  paired M C l1 -> paired M C l2 -> paired M C (l1 ++ l2)%list.
Proof.
  intros H1 H2. induction H1; cbn [app]; try assumption;
    now constructor.
Qed.

Section Launches.
Context {node : Node}.
Variables MSVC_BIN CLANG_BIN : string.

Lemma runTimed_logged bin args (w : @World node) (log : list string) :
  runState (@runTimed (logged node) bin args) (w, log)
  = (fst (runState (@runTimed node bin args) w),
     (snd (runState (@runTimed node bin args) w), (log ++ [bin])%list)).
Proof.
  rewrite (@runTimed_run (logged node)), (@runTimed_run node).
  cbn [hrtime_bigint spawnSync logged fst snd Number_toString].
  destruct (@hrtime_bigint node w) as [start w1]. cbn [fst snd].
  destruct (@spawnSync node bin args w1) as [result w2]. cbn [fst snd].
  destruct (@hrtime_bigint node w2) as [end_ w3]. reflexivity.
Qed.

Lemma runBothTimed_logged args (w : @World node) (log : list string) :
  exists pair,
    (pair = [MSVC_BIN; CLANG_BIN] \/ pair = [CLANG_BIN; MSVC_BIN])
    /\ runState (@runBothTimed (logged node) MSVC_BIN CLANG_BIN args) (w, log)
       = (fst (runState (@runBothTimed node MSVC_BIN CLANG_BIN args) w),
          (snd (runState (@runBothTimed node MSVC_BIN CLANG_BIN args) w),
           (log ++ pair)%list)).
Proof.
  rewrite (@runBothTimed_run (logged node)), (@runBothTimed_run node).
  cbn [Math_random logged fst snd].
  destruct (@Math_random node w) as [r w0]. cbn [fst snd].
  destruct (r <? 0.5).
  - exists [MSVC_BIN; CLANG_BIN]. split; [now left|].
    rewrite runTimed_logged.
    destruct (runState (@runTimed node MSVC_BIN args) w0) as [msvc w1].
    cbn [fst snd]. rewrite runTimed_logged.
    destruct (runState (@runTimed node CLANG_BIN args) w1) as [clang w2].
    cbn [fst snd]. now rewrite <- app_assoc.
  - exists [CLANG_BIN; MSVC_BIN]. split; [now right|].
    rewrite runTimed_logged.
    destruct (runState (@runTimed node CLANG_BIN args) w0) as [clang w1].
    cbn [fst snd]. rewrite runTimed_logged.
    destruct (runState (@runTimed node MSVC_BIN args) w1) as [msvc w2].
    cbn [fst snd]. now rewrite <- app_assoc.
Qed.

Lemma paired_pair (pair : list string) :
  pair = [MSVC_BIN; CLANG_BIN] \/ pair = [CLANG_BIN; MSVC_BIN] ->
  paired MSVC_BIN CLANG_BIN pair /\ List.length pair = 2%nat.
Proof. intros [-> | ->]; split; try reflexivity; repeat constructor. Qed.

End Launches.

Section LaunchCount.
Context {node : Node}.
Variables MSVC_BIN CLANG_BIN : string.

Lemma launches_warmup n args :
  launches node MSVC_BIN CLANG_BIN n
           (fun nd => @warmup nd MSVC_BIN CLANG_BIN n args).
Proof.
  induction n as [|n IH]; intros w log.
  - exists []. split; [constructor|]. split; [reflexivity|].
    cbn. now rewrite app_nil_r.
  - rewrite (@warmup_step (logged node)), (@warmup_step node).
    destruct (runBothTimed_logged MSVC_BIN CLANG_BIN args w log)
      as (pair & Hp & ->).
    destruct (runState (@runBothTimed node MSVC_BIN CLANG_BIN args) w)
      as [both w'].
    cbn [fst snd].
    destruct (IH w' (log ++ pair)%list) as (spawned & P & L & ->).
    destruct (paired_pair MSVC_BIN CLANG_BIN pair Hp) as [Pp Lp].
    exists (pair ++ spawned)%list.
    split; [now apply paired_app|].
    split; [rewrite length_app; lia|].
    now rewrite app_assoc.
Qed.

Lemma launches_measure_durations n args times :
  launches node MSVC_BIN CLANG_BIN n
           (fun nd => @measure_durations nd MSVC_BIN CLANG_BIN n args times).
Proof.
  revert times. induction n as [|n IH]; intros times w log.
  - exists []. split; [constructor|]. split; [reflexivity|].
    cbn. now rewrite app_nil_r.
  - rewrite (@measure_durations_step (logged node)),
            (@measure_durations_step node).
    destruct (runBothTimed_logged MSVC_BIN CLANG_BIN args w log)
      as (pair & Hp & ->).
    destruct (runState (@runBothTimed node MSVC_BIN CLANG_BIN args) w)
      as [both w'].
    cbn [fst snd].
    destruct (IH ((fst times ++ [durationMs (msvc_run both)])%list,
                  (snd times ++ [durationMs (clang_run both)])%list)
                 w' (log ++ pair)%list) as (spawned & P & L & ->).
    destruct (paired_pair MSVC_BIN CLANG_BIN pair Hp) as [Pp Lp].
    exists (pair ++ spawned)%list.
    split; [now apply paired_app|].
    split; [rewrite length_app; lia|].
    now rewrite app_assoc.
Qed.

Lemma launches_measure_printed n args times :
  launches node MSVC_BIN CLANG_BIN n
           (fun nd => @measure_printed nd MSVC_BIN CLANG_BIN n args times).
Proof.
  revert times. induction n as [|n IH]; intros times w log.
  - exists []. split; [constructor|]. split; [reflexivity|].
    cbn. now rewrite app_nil_r.
  - rewrite (@measure_printed_step (logged node)),
            (@measure_printed_step node).
    destruct (runBothTimed_logged MSVC_BIN CLANG_BIN args w log)
      as (pair & Hp & ->).
    destruct (runState (@runBothTimed node MSVC_BIN CLANG_BIN args) w)
      as [both w'].
    cbn [fst snd]. cbn zeta.
    change (@parseFloat (logged node)) with (@parseFloat node).
    change (@trim (logged node)) with (@trim node).
    set (times' := (_, _)).
    destruct (IH times' w' (log ++ pair)%list) as (spawned & P & L & ->).
    destruct (paired_pair MSVC_BIN CLANG_BIN pair Hp) as [Pp Lp].
    exists (pair ++ spawned)%list.
    split; [now apply paired_app|].
    split; [rewrite length_app; lia|].
    now rewrite app_assoc.
Qed.

Lemma launches_timing_workload title args :
  launches node MSVC_BIN CLANG_BIN (WARMUP + ITERATIONS)
           (fun nd => @timing_workload nd MSVC_BIN CLANG_BIN title args).
Proof.
  intros w log.
  rewrite (@timing_workload_run (logged node)), (@timing_workload_run node).
  destruct (launches_warmup WARMUP args w log) as (s1 & P1 & L1 & ->).
  destruct (runState (@warmup node MSVC_BIN CLANG_BIN WARMUP args) w)
    as [u w1].
  cbn [fst snd].
  destruct (launches_measure_durations ITERATIONS args ([], []) w1
              (log ++ s1)%list) as (s2 & P2 & L2 & ->).
  destruct (runState (@measure_durations node MSVC_BIN CLANG_BIN ITERATIONS
                        args ([], [])) w1) as [times w2].
  cbn [fst snd].
  exists (s1 ++ s2)%list.
  split; [now apply paired_app|].
  split; [rewrite length_app; lia|].
  now rewrite app_assoc.
Qed.

Lemma launches_printing_workload title args :
  launches node MSVC_BIN CLANG_BIN (WARMUP + ITERATIONS)
           (fun nd => @printing_workload nd MSVC_BIN CLANG_BIN title args).
Proof.
  intros w log.
  rewrite (@printing_workload_run (logged node)), (@printing_workload_run node).
  destruct (launches_warmup WARMUP args w log) as (s1 & P1 & L1 & ->).
  destruct (runState (@warmup node MSVC_BIN CLANG_BIN WARMUP args) w)
    as [u w1].
  cbn [fst snd].
  destruct (launches_measure_printed ITERATIONS args ([], []) w1
              (log ++ s1)%list) as (s2 & P2 & L2 & ->).
  destruct (runState (@measure_printed node MSVC_BIN CLANG_BIN ITERATIONS
                        args ([], [])) w1) as [times w2].
  cbn [fst snd].
  exists (s1 ++ s2)%list.
  split; [now apply paired_app|].
  split; [rewrite length_app; lia|].
  now rewrite app_assoc.
Qed.
End LaunchCount.

(** X10: every workload launches the two candidates in pairs.  On a
    runtime that records the binary of each child it launches, a timing
    workload and a printing workload each add [WARMUP + ITERATIONS] pairs
    to the record, 80 children; each pair is one launch of each
    candidate, in either order.  The record changes nothing else: the row
    and the world are those of the runtime without it. *)
Theorem workloads_launch_pairs {node : Node} (MSVC_BIN CLANG_BIN : string)
    (title : string) (args : list string) (code : string) :
  launches node MSVC_BIN CLANG_BIN (WARMUP + ITERATIONS)
           (fun nd => @timing_workload nd MSVC_BIN CLANG_BIN title args)
  /\ launches node MSVC_BIN CLANG_BIN (WARMUP + ITERATIONS)
              (fun nd => @printing_workload nd MSVC_BIN CLANG_BIN title args)
  /\ launches node MSVC_BIN CLANG_BIN (WARMUP + ITERATIONS)
              (fun nd => @benchStartupTime nd MSVC_BIN CLANG_BIN)
  /\ launches node MSVC_BIN CLANG_BIN (WARMUP + ITERATIONS)
              (fun nd => @benchBufferOps nd MSVC_BIN CLANG_BIN code).
Proof.
  split; [apply launches_timing_workload|].
  split; [apply launches_printing_workload|].
  split.
  - exact (launches_timing_workload MSVC_BIN CLANG_BIN
             ("Startup Time (node -e " ++ dquote ++ "0" ++ dquote ++ ")")
             ["-e"; "0"]).
  - exact (launches_printing_workload MSVC_BIN CLANG_BIN
             "Buffer ops (50k alloc+fill+hex)" ["-e"; code]).
Qed.

(** ** The summary (lines 727-738) *)

Lemma SFadd_not_negative x y :
  ~ signed_as true x -> ~ signed_as true y -> ~ signed_as true (SF64add x y).
Proof.
  destruct x as [sx | sx | | sx mx ex], y as [sy | sy | | sy my ey];
    cbn [SF64add SFadd signed_as]; try tauto;
    try (destruct sx, sy; cbn [signed_as]; intuition congruence).
  intros Hx Hy.
  destruct sx; [now elim Hx|]. destruct sy; [now elim Hy|].
  unfold SF64add, SFadd. cbn [cond_Zopp Z.add binary_normalize].
  apply (binary_round_sign false).
Qed.

Lemma add_not_negative (a b : float) :
  not_negative a -> not_negative b -> not_negative (a + b).
Proof.
  rewrite !not_negative_spec, add_spec. apply SFadd_not_negative.
Qed.

Lemma abs_not_negative (x : float) : not_negative (abs x).
Proof.
  apply not_negative_spec. rewrite abs_spec.
  destruct (Prim2SF x); cbn; intuition discriminate.
Qed.

Lemma pct_not_negative (r : Result) : not_negative (pct r).
Proof.
  unfold pct. destruct (0 <? msvc r); [apply abs_not_negative | reflexivity].
Qed.

Lemma fsum_from_not_negative (xs : list float) (acc : float) :
  not_negative acc -> Forall not_negative xs ->
  not_negative (fsum_from acc xs).
Proof.
  revert acc. induction xs as [|x xs IH]; intros acc Ha Hx; cbn.
  - exact Ha.
  - inversion Hx; subst. apply IH; [now apply add_not_negative | assumption].
Qed.

Lemma fsum_pct_not_negative (rows : list Result) :
  not_negative (fsum (map pct rows)).
Proof.
  apply fsum_from_not_negative; [reflexivity|].
  apply Forall_map, Forall_forall. intros r _. apply pct_not_negative.
Qed.

(** X11: an advantage is never below zero.  Whatever the rows hold, the
    two weighted totals of the summary are numbers at or above zero (or
    [NaN], when a row holds an infinite value): a row can only add to the
    total of the candidate that won it. *)
Theorem advantages_not_negative (allResults : list Result) :
  not_negative (msvcAdvantage (tally allResults))
  /\ not_negative (clangAdvantage (tally allResults)).
Proof.
  rewrite tally_spec. cbn [msvcAdvantage clangAdvantage].
  split; apply fsum_pct_not_negative.
Qed.

Lemma won_by_label (v : Verdict) (rows : list Result) (r : Result) :
  In r (won_by v rows) -> In r rows /\ verdict (winner_ r) = v.
Proof.
  unfold won_by. rewrite filter_In. intros [I E]. split; [exact I|].
  destruct (verdict (winner_ r)), v; try discriminate E; reflexivity.
Qed.

Lemma verdict_A (label : string) : verdict label = A -> label = "MSVC".
Proof.
  unfold verdict. destruct (String.eqb_spec label "MSVC"); [easy|].
  destruct (String.eqb label "ClangCL"); discriminate.
Qed.

Lemma verdict_B (label : string) : verdict label = B -> label = "ClangCL".
Proof.
  unfold verdict. destruct (String.eqb_spec label "MSVC"); [discriminate|].
  destruct (String.eqb_spec label "ClangCL"); [easy | discriminate].
Qed.

(** X12: the overall winner has won a row.  When the summary names a
    candidate as the overall winner, the report holds a row with that
    candidate's label; a candidate without a win is never the overall
    winner. *)
Theorem overall_winner_won_a_row {node : Node} (allResults : list Result) :
  overallWinner (summary allResults) <> "Tie" ->
  exists r, In r allResults
            /\ winner_ r = overallWinner (summary allResults).
Proof.
  unfold summary. cbn [overallWinner]. rewrite tally_spec.
  cbn [msvcAdvantage clangAdvantage].
  pose proof (fsum_pct_not_negative (won_by A allResults)) as NA.
  pose proof (fsum_pct_not_negative (won_by B allResults)) as NB.
  destruct (fsum (map pct (won_by B allResults))
            <? fsum (map pct (won_by A allResults))) eqn:E1.
  - intros _. destruct (won_by A allResults) as [|r rest] eqn:W.
    + cbn in E1. unfold not_negative in NB. congruence.
    + exists r. destruct (won_by_label A allResults r) as [I V].
      * rewrite W. now left.
      * split; [exact I | now apply verdict_A].
  - destruct (fsum (map pct (won_by A allResults))
              <? fsum (map pct (won_by B allResults))) eqn:E2.
    + intros _. destruct (won_by B allResults) as [|r rest] eqn:W.
      * cbn in E2. unfold not_negative in NA. congruence.
      * exists r. destruct (won_by_label B allResults r) as [I V].
        -- rewrite W. now left.
        -- split; [exact I | now apply verdict_B].
    + intros H. now elim H.
Qed.

Lemma overall_winner_won_a_row_witness :
  exists r, In r three_rows
            /\ winner_ r = overallWinner (@summary failing_node three_rows).
Proof.
  apply (@overall_winner_won_a_row failing_node three_rows).
  vm_compute. discriminate.
Defined.

Lemma won_by_none (v : Verdict) (rows : list Result) :
  Forall (fun r => verdict (winner_ r) = Tie) rows -> v <> Tie ->
  won_by v rows = [].
Proof.
  intros H Hv. unfold won_by. induction H as [|r rows Hr _ IH]; cbn.
  - reflexivity.
  - rewrite Hr. destruct v; try (now elim Hv); exact IH.
Qed.

Lemma won_by_all (rows : list Result) :
  Forall (fun r => verdict (winner_ r) = Tie) rows -> won_by Tie rows = rows.
Proof.
  intros H. unfold won_by. induction H as [|r rows Hr _ IH]; cbn.
  - reflexivity.
  - rewrite Hr. cbn. now rewrite IH.
Qed.

(** X13: a report without a win ends even.  When no row carries the
    label of a candidate (every row is [Tie] or [~Tie], or the report is
    empty), every row is counted as a tie, both advantages are zero, the
    shares read [50.0] and the overall winner is [Tie]. *)
Theorem report_without_wins {node : Node} (allResults : list Result) :
  Forall (fun r => verdict (winner_ r) = Tie) allResults ->
  totals (summary allResults)
  = {| msvcWins := 0; clangWins := 0; ties := length_ allResults;
       msvcAdvantage := 0; clangAdvantage := 0 |}
  /\ msvcShare (summary allResults) = "50.0"
  /\ clangShare (summary allResults) = "50.0"
  /\ overallWinner (summary allResults) = "Tie".
Proof.
  intros H. unfold summary.
  cbn [totals msvcShare clangShare overallWinner].
  rewrite tally_spec.
  rewrite (won_by_none A), (won_by_none B), won_by_all
    by (try assumption; discriminate).
  repeat split.
Qed.

Lemma report_without_wins_witness :
  overallWinner (@summary failing_node [row 100 100.5 2 2; row 7 7 0 0])
  = "Tie".
Proof.
  apply (@report_without_wins failing_node [row 100 100.5 2 2; row 7 7 0 0]).
  repeat constructor.
Defined.

(** ** The size of the binaries (lines 39-43 and 94-108) *)

(** X14: the sizes alone decide the size row.  When both sizes can be
    read, the row of [benchBinarySize] holds them as its values, carries
    no noise figure, and is never [~Tie]: the smaller binary wins, by any
    margin, and equal sizes are a [Tie].  Its cells are printed without a
    noise figure. *)
Theorem binary_size_row {node : Node} (shortest_decimal : float -> string)
    (statSync_size : string -> World -> option float)
    (MSVC_BIN CLANG_BIN : string) (w : World) (r : Result) :
  benchBinarySize shortest_decimal statSync_size MSVC_BIN CLANG_BIN w = Some r ->
  statSync_size MSVC_BIN w = Some (msvc r)
  /\ statSync_size CLANG_BIN w = Some (clang r)
  /\ winner_ r = (if msvc r <? clang r then "MSVC"
                  else if clang r <? msvc r then "ClangCL" else "Tie")
  /\ winner_ r <> "~Tie"
  /\ with_noise (msvcFmt r) (msvcStd r) = formatBytes shortest_decimal (msvc r)
  /\ with_noise (clangFmt r) (clangStd r) = formatBytes shortest_decimal (clang r).
Proof.
  unfold benchBinarySize.
  destruct (statSync_size MSVC_BIN w) as [msvcSize|]; [|discriminate].
  destruct (statSync_size CLANG_BIN w) as [clangSize|]; [|discriminate].
  intros H. injection H as <-.
  cbn [msvc clang winner_ msvcFmt clangFmt msvcStd clangStd with_noise].
  assert (E : winner msvcSize clangSize true 0 0
              = (if msvcSize <? clangSize then "MSVC"
                 else if clangSize <? msvcSize then "ClangCL" else "Tie"))
    by reflexivity.
  repeat split; try exact E.
  rewrite E. destruct (msvcSize <? clangSize); [discriminate|].
  destruct (clangSize <? msvcSize); discriminate.
Qed.

Lemma binary_size_row_witness :
  exists r,
    @benchBinarySize failing_node (fun _ => "")
      (fun p _ => if String.eqb p "msvc.exe" then Some 2049 else Some 2048)
      "msvc.exe" "clang.exe" 0%Z = Some r
    /\ winner_ r = "ClangCL".
Proof.
  eexists. split; [reflexivity|].
  apply (@binary_size_row failing_node (fun _ => "")
           (fun p _ => if String.eqb p "msvc.exe" then Some 2049 else Some 2048)
           "msvc.exe" "clang.exe" 0%Z).
  reflexivity.
Defined.

Lemma formatBytes_below_1024 {node : Node} (shortest_decimal : float -> string) :
  forallb (fun k => String.eqb
                      (formatBytes shortest_decimal (Number_of_Z (Z.of_nat k)))
                      (digits (Z.of_nat k) ++ " B"))
          (seq 0 1024) = true.
Proof. vm_compute. reflexivity. Qed.

(** X15: a size below 1024 bytes is printed as it is.  For a whole
    number of bytes from 0 to 1023, [formatBytes] gives its decimal digits
    followed by [ B], with no point and no rounding, on every runtime. *)
Theorem formatBytes_of_small_sizes {node : Node}
    (shortest_decimal : float -> string) (n : Z) :
  (0 <= n < 1024)%Z ->
  formatBytes shortest_decimal (Number_of_Z n) = digits n ++ " B".
Proof.
  intros H.
  pose proof (formatBytes_below_1024 shortest_decimal) as All.
  rewrite forallb_forall in All.
  specialize (All (Z.to_nat n)).
  rewrite Z2Nat.id in All by lia.
  apply String.eqb_eq, All, in_seq. lia.
Qed.

Lemma formatBytes_of_small_sizes_witness :
  @formatBytes failing_node (fun _ => "") (Number_of_Z 1023) = "1023 B".
Proof.
  apply (@formatBytes_of_small_sizes failing_node (fun _ => "") 1023). lia.
Defined.

(** ** The table (lines 651-677) *)





(** ** The sign of the difference (lines 49-53) *)

Local Open Scope Z_scope.

Lemma binary_round_aux_opp s m e l :
  binary_round_aux prec emax (negb s) m e l
  = SFopp (binary_round_aux prec emax s m e l).
Proof.
  unfold binary_round_aux.
  destruct (shr_fexp prec emax m e l) as [mrs1 e1].
  destruct (shr_fexp prec emax _ e1 loc_Exact) as [mrs2 e2].
  destruct (shr_m mrs2); [|destruct (e2 <=? emax - prec)|]; reflexivity.
Qed.

Lemma binary_round_opp s m e :
  binary_round prec emax (negb s) m e = SFopp (binary_round prec emax s m e).
Proof.
  unfold binary_round. destruct (shl_align m e _) as [mz ez].
  apply binary_round_aux_opp.
Qed.

Lemma signed_as_opp s x : signed_as s x -> signed_as (negb s) (SFopp x).
Proof. destruct x; cbn; try tauto; now intros ->. Qed.

Lemma SFsub_exchanged s x y :
  signed_as s (SF64sub x y) -> signed_as (negb s) (SF64sub y x).
Proof.
  destruct x as [sx | sx | | sx mx ex], y as [sy | sy | | sy my ey];
    try (cbn; tauto);
    try (destruct sx, sy; cbn; try tauto; now intros <-);
    try (destruct sx; cbn; try tauto; now intros <-);
    try (destruct sy; cbn; try tauto; now intros <-).
  unfold SF64sub, SFsub. rewrite (Z.min_comm ey ex).
  set (ez := Z.min ex ey).
  set (X := cond_Zopp sx _). set (Y := cond_Zopp sy _).
  replace (Y - X) with (- (X - Y)) by lia.
  destruct (X - Y) as [|p|p]; cbn [Z.opp binary_normalize].
  - cbn. tauto.
  - intros H. rewrite (binary_round_opp false). now apply signed_as_opp.
  - intros H. change false with (negb true).
    rewrite (binary_round_opp true). now apply signed_as_opp.
Qed.

Lemma SFmul_sign s x p :
  signed_as false p -> signed_as s (SF64mul x p) -> signed_as s x.
Proof.
  destruct x as [sx | sx | | sx mx ex], p as [sp | sp | | sp mp ep];
    cbn [signed_as SF64mul SFmul]; try tauto;
    try (intros ->; rewrite xorb_false_r; tauto).
  intros -> H. rewrite xorb_false_r in H.
  pose proof (binary_round_aux_sign sx (Zpos (mx * mp)) (ex + ep) loc_Exact) as N.
  destruct s, sx; cbn [negb] in N; try reflexivity; now elim N.
Qed.

Lemma SFdiv_sign s x p :
  signed_as false p -> signed_as s (SF64div x p) -> signed_as s x.
Proof.
  destruct x as [sx | sx | | sx mx ex], p as [sp | sp | | sp mp ep];
    cbn [signed_as SF64div SFdiv]; try tauto;
    try (intros ->; rewrite xorb_false_r; tauto).
  intros ->. rewrite xorb_false_r.
  destruct (SFdiv_core_binary prec emax (Zpos mx) ex (Zpos mp) ep)
    as [[mz ez] lz].
  intros H. pose proof (binary_round_aux_sign sx mz ez lz) as N.
  destruct s, sx; cbn [negb] in N; try reflexivity; now elim N.
Qed.

Local Open Scope float_scope.

Lemma above_zero_signed (x : float) :
  (0 <? x) = true <-> signed_as false (Prim2SF x).
Proof.
  rewrite ltb_spec. change (Prim2SF 0) with (S754_zero false).
  destruct (Prim2SF x) as [s | s | | s m e]; cbn;
    try destruct s; cbn; intuition discriminate.
Qed.

Lemma below_zero_signed (x : float) :
  (x <? 0) = true <-> signed_as true (Prim2SF x).
Proof.
  rewrite ltb_spec. change (Prim2SF 0) with (S754_zero false).
  destruct (Prim2SF x) as [s | s | | s m e]; cbn;
    try destruct s; cbn; intuition discriminate.
Qed.

(** The sign of [(clang - msvc) / msvc * 100] is the sign of
    [clang - msvc] when [msvc] is above zero. *)
Lemma diff_signed (s : bool) (msvc clang : float) :
  (0 <? msvc) = true ->
  signed_as s (Prim2SF ((clang - msvc) / msvc * 100)) ->
  signed_as s (Prim2SF (clang - msvc)).
Proof.
  intros Hm H. apply above_zero_signed in Hm.
  rewrite mul_spec, div_spec in H.
  apply SFmul_sign in H; [|reflexivity].
  apply SFdiv_sign in H; assumption.
Qed.

Lemma sub_above_zero (a b : float) : (0 <? a - b) = true -> (b <? a) = true.
Proof.
  intros H. apply above_zero_signed in H. rewrite sub_spec in H.
  apply SFsub_exchanged in H. rewrite <- sub_spec in H.
  apply below_zero_signed in H. now rewrite sub_ltb_zero in H.
Qed.

Lemma prefix_char (c d : ascii) (rest : string) :
  prefix (String c "") (String d rest) = Ascii.eqb c d.
Proof.
  cbn [prefix]. destruct (ascii_dec c d) as [-> | N].
  - rewrite Ascii.eqb_refl. now destruct rest.
  - symmetry. now apply Ascii.eqb_neq.
Qed.

Lemma pctDiff_sign {node : Node} (msvc clang : float) :
  let d := (clang - msvc) / msvc * 100 in
  prefix "+" (pctDiff msvc clang) = (0 <? d)
  /\ prefix "-" (pctDiff msvc clang) = (d <? 0).
Proof.
  intros d. unfold pctDiff. fold d.
  destruct (0 <? d) eqn:P.
  - rewrite (ltb_asym _ _ P). cbn [append]. rewrite !prefix_char.
    split; reflexivity.
  - cbn [append]. unfold toFixed.
    pose proof (above_zero_signed d) as A. rewrite P in A.
    pose proof (below_zero_signed d) as B.
    destruct (Prim2SF d) as [s | s | | s m e].
    + replace (fixed_point 0 2) with "0.00" by reflexivity.
      cbn [append]. rewrite !prefix_char.
      destruct (d <? 0); [|split; reflexivity].
      now elim (proj1 B eq_refl).
    + destruct s.
      * rewrite (proj2 B eq_refl). cbn [append]. rewrite !prefix_char.
        split; reflexivity.
      * discriminate (proj2 A eq_refl).
    + cbn [append]. rewrite !prefix_char.
      destruct (d <? 0); [|split; reflexivity].
      now elim (proj1 B eq_refl).
    + destruct s.
      * rewrite (proj2 B eq_refl). cbn [append]. rewrite !prefix_char.
        split; reflexivity.
      * discriminate (proj2 A eq_refl).
Qed.

(** X17: the sign of the difference agrees with the comparison.  When
    the value of MSVC is above zero, [pctDiff] starts with a plus sign
    only if the value of ClangCL is the larger one, and with a minus sign
    only if it is the smaller one; with lower being better, a row whose
    difference has a plus sign is never won by ClangCL, and one with a
    minus sign is never won by MSVC. *)
Theorem diff_sign_agrees {node : Node} (msvc clang : float) :
  (0 <? msvc) = true ->
  (prefix "+" (pctDiff msvc clang) = true ->
     (msvc <? clang) = true
     /\ forall msvcStd clangStd,
          winner msvc clang true msvcStd clangStd <> "ClangCL")
  /\ (prefix "-" (pctDiff msvc clang) = true ->
        (clang <? msvc) = true
        /\ forall msvcStd clangStd,
             winner msvc clang true msvcStd clangStd <> "MSVC").
Proof.
  intros Hm. destruct (pctDiff_sign msvc clang) as [Hp Hn]. cbn zeta in Hp, Hn.
  split; intros H.
  - rewrite Hp in H. apply above_zero_signed in H.
    apply diff_signed in H; [|exact Hm].
    apply above_zero_signed, sub_above_zero in H.
    split; [exact H|]. intros sa sb. unfold winner.
    destruct (_ && _); [discriminate|]. rewrite H. discriminate.
  - rewrite Hn in H. apply below_zero_signed in H.
    apply diff_signed in H; [|exact Hm].
    apply below_zero_signed in H. rewrite sub_ltb_zero in H.
    split; [exact H|]. intros sa sb. unfold winner.
    destruct (_ && _); [discriminate|].
    rewrite (ltb_asym _ _ H), H. discriminate.
Qed.

Lemma diff_sign_agrees_witness :
  prefix "+" (@pctDiff failing_node 100 110) = true /\ (100 <? 110) = true.
Proof.
  assert (P : prefix "+" (@pctDiff failing_node 100 110) = true) by reflexivity.
  split; [exact P|].
  apply (proj1 (@diff_sign_agrees failing_node 100 110 eq_refl) P).
Defined.

(** ** Children that print no number *)

Section Silent.
Context {node : Node}.
Variables MSVC_BIN CLANG_BIN : string.

Lemma runBothTimed_stdout args (w : World) :
  let both := fst (runState (runBothTimed MSVC_BIN CLANG_BIN args) w) in
  exists w1 w2,
    stdout (msvc_run both)
    = or_empty (fst (fst (fst (spawnSync MSVC_BIN args w1))))
    /\ stdout (clang_run both)
       = or_empty (fst (fst (fst (spawnSync CLANG_BIN args w2)))).
Proof.
  cbn zeta. rewrite runBothTimed_run.
  destruct (Math_random w) as [r w0]. destruct (r <? 0.5).
  - pose proof (runTimed_stdout MSVC_BIN args w0) as Hm.
    destruct (runState (runTimed MSVC_BIN args) w0) as [msvc w1].
    pose proof (runTimed_stdout CLANG_BIN args w1) as Hc.
    destruct (runState (runTimed CLANG_BIN args) w1) as [clang w2].
    cbn [fst snd msvc_run clang_run] in *.
    eexists _, _. split; eassumption.
  - pose proof (runTimed_stdout CLANG_BIN args w0) as Hc.
    destruct (runState (runTimed CLANG_BIN args) w0) as [clang w1].
    pose proof (runTimed_stdout MSVC_BIN args w1) as Hm.
    destruct (runState (runTimed MSVC_BIN args) w1) as [msvc w2].
    cbn [fst snd msvc_run clang_run] in *.
    eexists _, _. split; eassumption.
Qed.

Lemma measure_printed_nothing n args times (w : World) :
  (forall bin w',
     is_nan (parseFloat (trim (or_empty
               (fst (fst (fst (spawnSync bin args w'))))))) = true) ->
  fst (runState (measure_printed MSVC_BIN CLANG_BIN n args times) w) = times.
Proof.
  intros H. revert times w. induction n as [|n IH]; intros times w.
  - reflexivity.
  - rewrite measure_printed_step.
    destruct (runBothTimed_stdout args w) as (w1 & w2 & Hm & Hc).
    destruct (runState (runBothTimed MSVC_BIN CLANG_BIN args) w) as [both w'].
    cbn [fst] in Hm, Hc. cbn zeta.
    rewrite Hm, Hc, !H. cbn [negb]. rewrite IH. now destruct times.
Qed.
End Silent.

(** X18: a workload whose children print no number fails silently.  If
    no child of a printing workload prints something that reads as a
    number (it crashed, was killed at the timeout, or printed an error),
    the workload still returns a row: both SampleSets are empty, both
    cells read [NaN ms], the difference reads [NaN%] and the label is
    [Tie]. *)
Theorem unreadable_output_is_a_tie {node : Node} (MSVC_BIN CLANG_BIN : string)
    (title : string) (args : list string) (w : World) :
  (forall bin w',
     is_nan (parseFloat (trim (or_empty
               (fst (fst (fst (spawnSync bin args w'))))))) = true) ->
  let r := fst (runState (printing_workload MSVC_BIN CLANG_BIN title args) w) in
  r = timing_row title ([], [])
  /\ msvcFmt r = "NaN ms" /\ clangFmt r = "NaN ms"
  /\ diff r = "NaN%" /\ winner_ r = "Tie".
Proof.
  intros H. cbn zeta. rewrite printing_workload_run.
  destruct (runState (warmup MSVC_BIN CLANG_BIN WARMUP args) w) as [u w1].
  pose proof (measure_printed_nothing MSVC_BIN CLANG_BIN ITERATIONS args
                ([], []) w1 H) as E.
  destruct (runState (measure_printed MSVC_BIN CLANG_BIN ITERATIONS _ _) w1)
    as [times w2].
  cbn [fst] in *. subst times. repeat split.
Qed.

Lemma unreadable_output_is_a_tie_witness :
  winner_ (fst (runState (@printing_workload timeout_node "msvc.exe" "clang.exe"
                            "t" ["-e"; "0"]) 0%Z)) = "Tie".
Proof.
  apply (@unreadable_output_is_a_tie timeout_node "msvc.exe" "clang.exe"
           "t" ["-e"; "0"] 0%Z).
  intros bin w'. reflexivity.
Defined.
